(** * json-scraper: a shallow embedding of the fetch-and-aggregate pipeline

    The development follows the three source files of the repository:
    - [types.ts]: [ScrapeStatus], [MatchJob], [BASE_URL], [extractMatchId];
    - the scraper service: [delay], [downloadAsZip], [PROXY_PROVIDERS],
      [fetchTextWithFallback], [fetchResultsPage], [fetchMatchData];
    - the application component: [processJob], [getZipName],
      [generateFilenames], [handleBulkStart].

    JavaScript strings are sequences of UTF-16 code units, modelled as
    [list N].  Asynchronous code is a single cooperative task, modelled by
    explicit state passing over a world that answers the calls made to the
    browser (network, clock, archive generation), and by a trace of the
    observable events in the order in which the code performs them. *)

From Stdlib Require Import List ZArith NArith Bool Lia.
From Stdlib Require Import String Ascii DecimalString.
Import ListNotations.

Set Warnings "-register-all".

(* ================================================================== *)
(** ** JavaScript strings *)

Module Js.

(** A string is the list of its UTF-16 code units. *)
Definition jsstring : Type := list N.

(** Source literals, all of them ASCII, are written as Rocq strings. *)
Definition lit (s : string) : jsstring :=
  List.map N_of_ascii (list_ascii_of_string s).

Definition unit_eqb : N -> N -> bool := N.eqb.

Fixpoint eqb (a b : jsstring) : bool :=
  match a, b with
  | [], [] => true
  | x :: a', y :: b' => unit_eqb x y && eqb a' b'
  | _, _ => false
  end.

(** [s.startsWith(p)] *)
Fixpoint startsWith (p s : jsstring) : bool :=
  match p, s with
  | [], _ => true
  | x :: p', y :: s' => unit_eqb x y && startsWith p' s'
  | _ :: _, [] => false
  end.

(** [s.includes(p)] *)
Fixpoint includes (p s : jsstring) : bool :=
  startsWith p s ||
  match s with
  | [] => false
  | _ :: s' => includes p s'
  end.

(** [s.endsWith(p)] *)
Definition endsWith (p s : jsstring) : bool :=
  startsWith (rev p) (rev s).

(** [s.split(sep)] for a separator of one code unit.  The result is never
    empty: the empty string splits into one empty chunk. *)
Fixpoint split (sep : N) (s : jsstring) : list jsstring :=
  match s with
  | [] => [[]]
  | c :: r =>
      if unit_eqb c sep then [] :: split sep r
      else match split sep r with
           | h :: t => (c :: h) :: t
           | [] => [[c]]
           end
  end.

(** ECMAScript WhiteSpace and LineTerminator code points, the ones
    [String.prototype.trim] removes. *)
Definition is_whitespace (c : N) : bool :=
  ((9 <=? c) && (c <=? 13) || (c =? 32) || (c =? 160) || (c =? 5760)
   || (8192 <=? c) && (c <=? 8202) || (c =? 8232) || (c =? 8233)
   || (c =? 8239) || (c =? 8287) || (c =? 12288) || (c =? 65279))%N.

Fixpoint trimStart (s : jsstring) : jsstring :=
  match s with
  | c :: r => if is_whitespace c then trimStart r else s
  | [] => []
  end.

Definition trimEnd (s : jsstring) : jsstring := rev (trimStart (rev s)).

(** [s.trim()] *)
Definition trim (s : jsstring) : jsstring := trimEnd (trimStart s).

(** A string is blank when it is empty or made of white space only, which
    is when [s.trim().length === 0]. *)
Definition blank (s : jsstring) : bool := forallb is_whitespace s.

(** [String(n)] and a template hole [${n}] for a safe integer (a length,
    an index, an HTTP status, a time in milliseconds): the decimal digits,
    with a leading minus sign for a negative number. *)
Definition of_Z (z : Z) : jsstring := lit (NilZero.string_of_int (Z.to_int z)).

End Js.

Abbreviation jsstring := Js.jsstring.

Definition js (s : string) : jsstring := Js.lit s.
Arguments js s%_string.

(* ================================================================== *)
(** ** types.ts *)

Inductive ScrapeStatus : Type :=
  | IDLE | QUEUED | FETCHING_HTML | DOWNLOADING_JSON | COMPLETED | ERROR.

Record MatchJob : Type := mkJob {
  id : jsstring;
  url : jsstring;
  status : ScrapeStatus;
  statsFileDownloaded : bool;
  movesFileDownloaded : bool;
  error : option jsstring;
  matchTitle : option jsstring
}.

Definition BASE_URL : jsstring := js "https://www.basquetcatala.cat".

Definition slash : N := 47.

(** [parts[parts.length - 1]]: [undefined] on the empty array. *)
Fixpoint last_opt {A : Type} (l : list A) : option A :=
  match l with
  | [] => None
  | [x] => Some x
  | _ :: t => last_opt t
  end.

(** The character class [[0-9a-fA-F]]. *)
Definition is_hex (c : N) : bool :=
  ((48 <=? c) && (c <=? 57) || (65 <=? c) && (c <=? 70)
   || (97 <=? c) && (c <=? 102))%N.

(** [/^[0-9a-fA-F]{24}$/.test(s)]: without the multiline flag the anchors
    are the two ends of the input. *)
Definition is_hex24 (s : jsstring) : bool :=
  Nat.eqb (List.length s) 24 && forallb is_hex s.

Definition nonempty (p : jsstring) : bool := Nat.ltb 0 (List.length p).

Definition extractMatchId (url : jsstring) : option jsstring :=
  let parts := filter nonempty (Js.split slash url) in
  match last_opt parts with
  | Some potentialId =>
      if nonempty potentialId && is_hex24 potentialId
      then Some potentialId else None
  | None => None
  end.

(* ================================================================== *)
(** ** JSON values as the code inspects them *)

(** The payloads come out of [JSON.parse].  [JNum z] is the number of
    integer value [z] (the two zeros are both [JNum 0]: the code cannot
    tell them apart), [JFrac k e] the number [(2k+1)/2^e], which is no
    integer, and [JInf] what a literal beyond the range of the doubles is
    read as.  An object lists its own fields, each key once, as
    [JSON.parse] leaves them. *)
Inductive json : Type :=
  | JNull
  | JBool (b : bool)
  | JNum (z : Z)
  | JStr (s : jsstring)
  | JArr (items : list json)
  | JObj (fields : list (jsstring * json))
  | JFrac (k : Z) (e : positive)
  | JInf (negative : bool).

(** The numbers whose digits are the engine's choice. *)
Inductive number : Type :=
  | Integer (z : Z)
  | Fraction (k : Z) (e : positive).

(** [Number.isSafeInteger] *)
Definition safe (z : Z) : bool := (Z.abs z <=? 9007199254740991)%Z.

(** A JavaScript value read by the code: a JSON value or [undefined]. *)
Definition value : Type := option json.

Definition undefined : value := None.

(** Truthiness, the test made by [if (v)], [v && ...] and [!v]. *)
Definition truthy (v : value) : bool :=
  match v with
  | None => false
  | Some JNull => false
  | Some (JBool b) => b
  | Some (JNum z) => negb (Z.eqb z 0)
  | Some (JStr s) => nonempty s
  | Some (JArr _) => true
  | Some (JObj _) => true
  | Some (JFrac _ _) => true
  | Some (JInf _) => true
  end.

(** [v !== undefined] *)
Definition defined (v : value) : bool :=
  match v with Some _ => true | None => false end.

Fixpoint assoc (k : jsstring) (fields : list (jsstring * json)) : value :=
  match fields with
  | [] => None
  | (k', v) :: rest => if Js.eqb k k' then Some v else assoc k rest
  end.

(** [v.k] and [v?.k] for the field names the code reads ([jornada],
    [match], [teams], [data], [score], [resultatLocal], [resultatVisitant],
    [status], [http_code], [contents]).  Only an object has such a field.
    Every plain [v.k] of the source stands behind a truthiness test of [v],
    so it never meets [null] or [undefined]; on these [v?.k] is
    [undefined].  On a string, [match] names the built-in method, which
    has none of the fields the code reads from it, so every read that goes
    through it is [undefined] as it is here. *)
Definition member (v : value) (k : jsstring) : value :=
  match v with
  | Some (JObj fields) => assoc k fields
  | _ => None
  end.

(** [v[i]] on a truthy value: an array element, the field named by the
    index in an object, a one-unit string in a string. *)
Definition at_index (v : value) (i : nat) : value :=
  match v with
  | Some (JArr items) => nth_error items i
  | Some (JObj fields) => assoc (Js.of_Z (Z.of_nat i)) fields
  | Some (JStr s) => option_map (fun c => JStr [c]) (nth_error s i)
  | _ => None
  end.

Definition comma : N := 44.

(** [v === 200] *)
Definition is_200 (v : value) : bool :=
  match v with
  | Some (JNum z) => Z.eqb z 200
  | _ => false
  end.

Record filenames : Type := mkNames {
  statsName : jsstring;
  movesName : jsstring
}.

(* ================================================================== *)
(** ** Errors, responses, files and observable events *)

(** A thrown value.  Everything the code throws or catches is an [Error]
    object (or one of its subclasses) and is told apart by its message. *)
Inductive js_error : Type := Error (message : jsstring).

Definition message (e : js_error) : jsstring :=
  match e with Error m => m end.

(** The outcome of a call that returns or throws (of a promise that
    resolves or rejects). *)
Inductive result (A : Type) : Type :=
  | Ok (a : A)
  | Throw (e : js_error).

Arguments Ok {A} a.
Arguments Throw {A} e.

(** What the code reads of a [Response]: [ok], [status], and the body text,
    whose reading may itself reject. *)
Record Response : Type := mkResponse {
  resp_ok : bool;
  resp_status : Z;
  resp_body : result jsstring
}.

Record file : Type := mkFile {
  filename : jsstring;
  data : json
}.

Inductive console_level : Type := Log | Warn | Err.

(** The events of a run, in the order the code performs them.  A request is
    recorded with the outcome the network gave it. *)
Inductive event : Type :=
  | EvConsole (level : console_level) (text : jsstring) (e : option js_error)
  | EvFetch (proxyUrl : jsstring) (outcome : result Response)
  | EvDelay (ms : Z)
  | EvJobs (snapshot : list MatchJob)
  | EvStatusMessage (text : jsstring)
  | EvIsProcessing (b : bool)
  | EvZip (entries : list (jsstring * jsstring)) (generated : bool)
  | EvSave (zipFilename : jsstring).

(** The browser and library calls the code makes.  [World] is whatever
    decides their answers.  [Number_toString] is [String(x)] for the
    numbers whose digits the engine picks: the ones that are no integer and
    the integers beyond the safe range. *)
Class Browser : Type := {
  World : Type;
  Blob : Type;
  fetch : jsstring -> World -> result Response * World;
  Date_now : World -> Z;
  Date_toISOString : World -> jsstring;
  setTimeout : Z -> World -> World;
  encodeURIComponent : jsstring -> jsstring;
  toLowerCase : jsstring -> jsstring;
  JSON_parse : jsstring -> result json;
  JSON_stringify : json -> jsstring;
  Number_toString : number -> jsstring;
  anchor_hrefs : jsstring -> list (option jsstring);
  zip_generateAsync : list (jsstring * jsstring) -> World -> result Blob * World;
  save_as : Blob -> jsstring -> World -> World
}.

(** A provider of [PROXY_PROVIDERS]. *)
Record ProxyProvider : Type := mkProvider {
  name : jsstring;
  getUrl : jsstring -> jsstring;
  isWrapped : bool
}.

Inductive data_type : Type := stats | moves.

(** [Array.from(new Set(l))]: the first occurrence of each string, in
    insertion order. *)
Fixpoint Array_from_Set (seen l : list jsstring) : list jsstring :=
  match l with
  | [] => []
  | x :: t =>
      if existsb (Js.eqb x) seen then Array_from_Set seen t
      else x :: Array_from_Set (x :: seen) t
  end.

(** The chain of [filter] and [map] calls of [fetchResultsPage] on the
    [href] attributes of the anchors, in document order. *)
Definition normalize (href : jsstring) : jsstring :=
  if Js.startsWith (js "http") href then href
  else BASE_URL ++ (if Js.startsWith (js "/") href then [] else js "/") ++ href.

Definition wanted (href : option jsstring) : option jsstring :=
  match href with
  | Some h => if Js.includes (js "/estadistiques/") h then Some h else None
  | None => None
  end.

(** [.filter((href): href is string => href !== null && href.includes(...))] *)
Fixpoint filter_hrefs (hrefs : list (option jsstring)) : list jsstring :=
  match hrefs with
  | [] => []
  | a :: rest =>
      match wanted a with
      | Some h => h :: filter_hrefs rest
      | None => filter_hrefs rest
      end
  end.

Definition statsLinks (hrefs : list (option jsstring)) : list jsstring :=
  List.map normalize (filter_hrefs hrefs).

(** The extraction step of [fetchResultsPage]: from the anchors of the
    parsed page to the deduplicated links. *)
Definition extractMatchLinks (hrefs : list (option jsstring)) : list jsstring :=
  Array_from_Set [] (statsLinks hrefs).

(** A reference (an [href]) is relative when no scheme opens it, that is
    when no colon comes before its first slash, question mark or hash. *)
Fixpoint has_scheme (href : jsstring) : bool :=
  match href with
  | [] => false
  | c :: r =>
      if (c =? 58)%N then true
      else if (c =? 47)%N || (c =? 63)%N || (c =? 35)%N then false
      else has_scheme r
  end.

Definition relative (href : jsstring) : bool := negb (has_scheme href).

(** The last path segment of a URL as the specification words it: the
    path stops where the query string or the fragment begins. *)
Fixpoint path_part (url : jsstring) : jsstring :=
  match url with
  | [] => []
  | c :: r => if (c =? 63)%N || (c =? 35)%N then [] else c :: path_part r
  end.

Definition last_path_segment (url : jsstring) : option jsstring :=
  last_opt (filter nonempty (Js.split slash (path_part url))).

(* ================================================================== *)
(** ** Conversion to text, and generateFilenames *)

Section Text.

Context {B : Browser}.

(** What [String(v)] throws on an object that has no way to a primitive. *)
Definition not_primitive : js_error :=
  Error (js "Cannot convert object to primitive value").

(** [String(v)] on a JSON value.  A safe integer gives its digits.  An
    array joins its elements with commas, from left to right, [null]
    elements giving the empty string.  An object gives [[object Object]]
    through the method it inherits, unless it has a field of its own
    named [toString]: that field hides the method, it is not callable, and
    the [valueOf] that is tried next gives no primitive, so the conversion
    throws. *)
Fixpoint to_String (v : json) : result jsstring :=
  match v with
  | JNull => Ok (js "null")
  | JBool true => Ok (js "true")
  | JBool false => Ok (js "false")
  | JNum z => Ok (if safe z then Js.of_Z z else Number_toString (Integer z))
  | JFrac k e => Ok (Number_toString (Fraction k e))
  | JInf negative => Ok (if negative then js "-Infinity" else js "Infinity")
  | JStr s => Ok s
  | JArr items =>
      (fix join (l : list json) : result jsstring :=
         match l with
         | [] => Ok []
         | x :: t =>
             match match x with JNull => Ok [] | _ => to_String x end with
             | Throw e => Throw e
             | Ok sx =>
                 match t with
                 | [] => Ok sx
                 | _ :: _ =>
                     match join t with
                     | Ok st => Ok (sx ++ comma :: st)
                     | Throw e => Throw e
                     end
                 end
             end
         end) items
  | JObj fields =>
      if defined (assoc (js "toString") fields) then Throw not_primitive
      else Ok (js "[object Object]")
  end.

(** [String(v)] and the template hole [${v}]. *)
Definition String_ (v : value) : result jsstring :=
  match v with
  | Some j => to_String j
  | None => Ok (js "undefined")
  end.

(** [s.trim()] on the outcome of a conversion. *)
Definition trimmed (r : result jsstring) : result jsstring :=
  match r with
  | Ok s => Ok (Js.trim s)
  | Throw e => Throw e
  end.

(** [generateFilenames].  The three facts are converted in the order of
    the source: the round, the home score, the away score; a conversion
    that throws ends the call. *)
Definition generateFilenames (stats : value) (index : Z) : result filenames :=
  let jornada :=
    if truthy stats then
      if truthy (member stats (js "jornada"))
      then String_ (member stats (js "jornada"))
      else if truthy (member stats (js "match"))
              && truthy (member (member stats (js "match")) (js "jornada"))
      then String_ (member (member stats (js "match")) (js "jornada"))
      else Ok (js "0")
    else Ok (js "0") in
  let score (i : nat) (top : jsstring) : result jsstring :=
    if truthy stats then
      let nested :=
        member (member (at_index (member stats (js "teams")) i) (js "data"))
               (js "score") in
      if truthy (member stats (js "teams")) && defined nested
      then String_ nested
      else if defined (member stats top)
      then String_ (member stats top)
      else if truthy (member stats (js "match"))
              && defined (member (member stats (js "match")) top)
      then String_ (member (member stats (js "match")) top)
      else Ok (js "0")
    else Ok (js "0") in
  match jornada with
  | Throw e => Throw e
  | Ok jornada =>
      match score 0%nat (js "resultatLocal") with
      | Throw e => Throw e
      | Ok pl =>
          match score 1%nat (js "resultatVisitant") with
          | Throw e => Throw e
          | Ok pv =>
              let x := Js.trim jornada in
              let y := Js.of_Z index in
              let pl_clean := Js.trim pl in
              let pv_clean := Js.trim pv in
              Ok {| statsName := js "J" ++ x ++ js "_P" ++ y ++ js "_"
                                 ++ pl_clean ++ js "_" ++ pv_clean
                                 ++ js ".json";
                    movesName := js "J" ++ x ++ js "_P" ++ y
                                 ++ js "_Moves.json" |}
          end
      end
  end.

(** The round as the sentence of the specification words it: the top-level
    field when the payload has one, else the field under [match], else the
    placeholder. *)
Definition round_when_present (stats : value) : result jsstring :=
  match member stats (js "jornada") with
  | Some v => trimmed (to_String v)
  | None =>
      match member (member stats (js "match")) (js "jornada") with
      | Some v => trimmed (to_String v)
      | None => Ok (js "0")
      end
  end.

(** The round as the code finds it: a field counts when its value is
    truthy, so [0], the empty string, [null] and [false] are passed over. *)
Definition round_when_truthy (stats : value) : result jsstring :=
  if truthy (member stats (js "jornada"))
  then trimmed (String_ (member stats (js "jornada")))
  else if truthy (member (member stats (js "match")) (js "jornada"))
  then trimmed (String_ (member (member stats (js "match")) (js "jornada")))
  else Ok (js "0").

(** The first value of a list that is not [undefined]. *)
Fixpoint first_defined (vs : list value) : value :=
  match vs with
  | [] => None
  | Some v :: _ => Some v
  | None :: rest => first_defined rest
  end.

(** A score as the code finds it: the first of the three places that holds
    a value, whatever the value, else the placeholder. *)
Definition score_when_defined (stats : value) (i : nat) (top : jsstring)
    : result jsstring :=
  match first_defined
          [ member (member (at_index (member stats (js "teams")) i) (js "data"))
                   (js "score");
            member stats top;
            member (member stats (js "match")) top ] with
  | Some v => trimmed (to_String v)
  | None => Ok (js "0")
  end.

(** The names made of a round and two scores. *)
Definition names_of (x : jsstring) (index : Z) (pl pv : jsstring) : filenames :=
  {| statsName := js "J" ++ x ++ js "_P" ++ Js.of_Z index ++ js "_" ++ pl
                  ++ js "_" ++ pv ++ js ".json";
     movesName := js "J" ++ x ++ js "_P" ++ Js.of_Z index
                  ++ js "_Moves.json" |}.

End Text.

(* ================================================================== *)
(** ** The cooperative task: state, events, sequencing *)

Section Pipeline.

Context {B : Browser}.

(** The state a run reads and writes: the world behind the browser calls
    and the three pieces of component state. *)
Record State : Type := mkState {
  world : World;
  jobs : list MatchJob;
  isProcessing : bool;
  statusMessage : jsstring
}.

(** An action returns a value, a new state and the events it performed. *)
Definition M (A : Type) : Type := State -> A * State * list event.

Definition ret {A : Type} (a : A) : M A := fun s => (a, s, []).

Definition bind {A C : Type} (m : M A) (k : A -> M C) : M C :=
  fun s =>
    let '(a, s1, t1) := m s in
    let '(c, s2, t2) := k a s1 in
    (c, s2, t1 ++ t2).

Definition emit (e : event) : M unit := fun s => (tt, s, [e]).

Definition with_world (w : World) (s : State) : State :=
  mkState w (jobs s) (isProcessing s) (statusMessage s).

Definition console (level : console_level) (text : jsstring)
    (e : option js_error) : M unit :=
  emit (EvConsole level text e).

(** [await fetch(proxyUrl)] *)
Definition do_fetch (proxyUrl : jsstring) : M (result Response) :=
  fun s =>
    let '(r, w) := fetch proxyUrl (world s) in
    (r, with_world w s, [EvFetch proxyUrl r]).

(** [await delay(ms)] *)
Definition delay (ms : Z) : M unit :=
  fun s => (tt, with_world (setTimeout ms (world s)) s, [EvDelay ms]).

(** [setJobs(prev => f(prev))] and [setJobs(l)]. *)
Definition setJobs (f : list MatchJob -> list MatchJob) : M unit :=
  fun s =>
    let l := f (jobs s) in
    (tt, mkState (world s) l (isProcessing s) (statusMessage s), [EvJobs l]).

Definition setIsProcessing (b : bool) : M unit :=
  fun s =>
    (tt, mkState (world s) (jobs s) b (statusMessage s), [EvIsProcessing b]).

Definition setStatusMessage (text : jsstring) : M unit :=
  fun s =>
    (tt, mkState (world s) (jobs s) (isProcessing s) text,
     [EvStatusMessage text]).

Definition Date_now_ : M Z := fun s => (Date_now (world s), s, []).

Definition Date_toISOString_ : M jsstring :=
  fun s => (Date_toISOString (world s), s, []).

End Pipeline.

Declare Scope task_scope.
Delimit Scope task_scope with task.
Notation "x <- m ;; k" := (bind m (fun x => k))
  (at level 61, m at next level, right associativity) : task_scope.
Notation "m ;; k" := (bind m (fun _ => k))
  (at level 61, right associativity) : task_scope.
Open Scope task_scope.

(* ================================================================== *)
(** ** The scraper service *)

Section Service.

Context {B : Browser}.

(** [downloadAsZip]: whatever the archive generation throws is caught,
    logged, and turned into [false]. *)
Definition downloadAsZip (files : list file) (zipFilename : jsstring)
    : M bool :=
  fun s =>
    let entries :=
      List.map (fun f => (filename f, JSON_stringify (data f))) files in
    match zip_generateAsync entries (world s) with
    | (Ok content, w) =>
        (true, with_world (save_as content zipFilename w) s,
         [EvZip entries true; EvSave zipFilename])
    | (Throw e, w) =>
        (false, with_world w s,
         [EvZip entries false;
          EvConsole Err (js "ZIP Generation failed") (Some e)])
    end.

Definition PROXY_PROVIDERS : list ProxyProvider :=
  [ mkProvider (js "allorigins-wrapped")
      (fun target =>
         js "https://api.allorigins.win/get?url=" ++ encodeURIComponent target)
      true;
    mkProvider (js "codetabs")
      (fun target =>
         js "https://api.codetabs.com/v1/proxy?quest="
         ++ encodeURIComponent target)
      false;
    mkProvider (js "corsproxy.io")
      (fun target => js "https://corsproxy.io/?" ++ encodeURIComponent target)
      false ].

(** [if (!text || text.trim().length === 0) throw ...; return text;]
    A truthy [text] that is no string has no [trim] to call. *)
Definition check_text (text : value) : result jsstring :=
  if negb (truthy text) then Throw (Error (js "Received empty response body"))
  else match text with
       | Some (JStr t) =>
           if Nat.eqb (List.length (Js.trim t)) 0
           then Throw (Error (js "Received empty response body"))
           else Ok t
       | _ => Throw (Error (js "text.trim is not a function"))
       end.

(** The body of the [try] block from the response on: what one provider's
    answer is worth. *)
Definition decode (provider : ProxyProvider) (outcome : result Response)
    : result jsstring :=
  match outcome with
  | Throw e => Throw e
  | Ok response =>
      if negb (resp_ok response) then
        Throw (Error (js "Proxy " ++ name provider ++ js " returned status "
                      ++ Js.of_Z (resp_status response)))
      else if isWrapped provider then
        match resp_body response with
        | Throw e => Throw e
        | Ok raw =>
            match JSON_parse raw with
            | Throw e => Throw e
            | Ok j =>
                let wrapperJson := Some j in
                let http_code :=
                  member (member wrapperJson (js "status")) (js "http_code") in
                if truthy wrapperJson
                   && truthy (member wrapperJson (js "status"))
                   && is_200 http_code
                then check_text (member wrapperJson (js "contents"))
                else
                  match String_ http_code with
                  | Ok code =>
                      Throw (Error (js "Wrapped proxy returned error code: "
                                    ++ code))
                  | Throw e => Throw e
                  end
            end
        end
      else
        match resp_body response with
        | Throw e => Throw e
        | Ok t => check_text (Some (JStr t))
        end
  end.

(** One turn of the [for] loop, up to the [catch]. *)
Definition attempt (provider : ProxyProvider) (urlWithCacheBuster : jsstring)
    : M (result jsstring) :=
  let proxyUrl := getUrl provider urlWithCacheBuster in
  console Log (js "Attempting fetch via " ++ name provider ++ js "...") None ;;
  response <- do_fetch proxyUrl ;;
  ret (decode provider response).

(** The [for] loop over the providers, with [lastError], and the final
    [throw lastError || new Error(...)]. *)
Fixpoint fallback (providers : list ProxyProvider)
    (urlWithCacheBuster : jsstring) (lastError : option js_error)
    : M (result jsstring) :=
  match providers with
  | [] =>
      ret (Throw (match lastError with
                  | Some e => e
                  | None => Error (js "All proxies failed to retrieve data.")
                  end))
  | provider :: rest =>
      r <- attempt provider urlWithCacheBuster ;;
      match r with
      | Ok text => ret (Ok text)
      | Throw e =>
          console Warn (js "Failed with " ++ name provider ++ js ":") (Some e) ;;
          delay 1000 ;;
          fallback rest urlWithCacheBuster (Some e)
      end
  end.

Definition cache_busted (targetUrl : jsstring) (now : Z) : jsstring :=
  targetUrl ++ (if Js.includes (js "?") targetUrl then js "&" else js "?")
  ++ js "__t=" ++ Js.of_Z now.

(** [fetchTextWithFallback], over a list of providers. *)
Definition fetchTextWithFallback_over (providers : list ProxyProvider)
    (targetUrl : jsstring) : M (result jsstring) :=
  now <- Date_now_ ;;
  fallback providers (cache_busted targetUrl now) None.

Definition fetchTextWithFallback (targetUrl : jsstring)
    : M (result jsstring) :=
  fetchTextWithFallback_over PROXY_PROVIDERS targetUrl.

Definition fetchResultsPage (pageUrl : jsstring)
    : M (result (list jsstring)) :=
  r <- fetchTextWithFallback pageUrl ;;
  match r with
  | Ok html => ret (Ok (extractMatchLinks (anchor_hrefs html)))
  | Throw e =>
      console Err (js "Error scraping results page:") (Some e) ;;
      ret (Throw e)
  end.

Definition type_name (type : data_type) : jsstring :=
  match type with stats => js "stats" | moves => js "moves" end.

Definition API_BASE : jsstring :=
  js "https://msstats.optimalwayconsulting.com/v1/fcbq".

Definition endpoint (type : data_type) : jsstring :=
  match type with
  | stats => js "getJsonWithMatchStats"
  | moves => js "getJsonWithMatchMoves"
  end.

Definition fetchMatchData (matchId : jsstring) (type : data_type)
    : M (result json) :=
  let targetUrl :=
    API_BASE ++ js "/" ++ endpoint type ++ js "/" ++ matchId
    ++ js "?currentSeason=true" in
  let failed (e : js_error) : M (result json) :=
    console Err (js "Error fetching " ++ type_name type ++ js " for "
                 ++ matchId ++ js ":") (Some e) ;;
    ret (Throw e) in
  r <- fetchTextWithFallback targetUrl ;;
  match r with
  | Ok jsonString =>
      match JSON_parse jsonString with
      | Ok v => ret (Ok v)
      | Throw e =>
          console Err (js "Failed to parse JSON for " ++ type_name type
                       ++ js ".") (Some e) ;;
          failed (Error (js "Invalid JSON response from server"))
      end
  | Throw e => failed e
  end.

(** *** Readings of a pass over the providers *)

(** What the answers given to the providers, in order, are worth. *)
Definition verdicts (providers : list ProxyProvider)
    (outcomes : list (result Response)) : list (result jsstring) :=
  List.map (fun po => decode (fst po) (snd po)) (combine providers outcomes).

Definition failed (r : result jsstring) : Prop := exists e, r = Throw e.

(** The failure of the last attempt that failed, or the error held before
    the pass when none did. *)
Fixpoint last_failure (lastError : option js_error)
    (vs : list (result jsstring)) : option js_error :=
  match vs with
  | [] => lastError
  | Throw e :: rest => last_failure (Some e) rest
  | Ok _ :: rest => last_failure lastError rest
  end.

(** The error thrown at the end of a pass in which no attempt succeeded:
    the last failure, or the fixed error when there was none. *)
Definition final_error (lastError : option js_error)
    (vs : list (result jsstring)) : js_error :=
  match last_failure lastError vs with
  | Some e => e
  | None => Error (js "All proxies failed to retrieve data.")
  end.

Definition requests (evs : list event) : list (jsstring * result Response) :=
  flat_map (fun e => match e with
                     | EvFetch u r => [(u, r)]
                     | _ => []
                     end) evs.

End Service.

(* ================================================================== *)
(** ** The application component *)

Section App.

Context {B : Browser}.

(** The object spreads [{ ...j, field: v }] of the job updates. *)
Definition with_status (st : ScrapeStatus) (j : MatchJob) : MatchJob :=
  mkJob (id j) (url j) st (statsFileDownloaded j) (movesFileDownloaded j)
        (error j) (matchTitle j).

Definition with_stats_downloaded (j : MatchJob) : MatchJob :=
  mkJob (id j) (url j) (status j) true (movesFileDownloaded j)
        (error j) (matchTitle j).

Definition with_moves_completed (j : MatchJob) : MatchJob :=
  mkJob (id j) (url j) COMPLETED (statsFileDownloaded j) true
        (error j) (matchTitle j).

Definition with_error (msg : jsstring) (j : MatchJob) : MatchJob :=
  mkJob (id j) (url j) ERROR (statsFileDownloaded j) (movesFileDownloaded j)
        (Some msg) (matchTitle j).

(** [prev.map(j => j.id === job.id ? f(j) : j)] *)
Definition update (target : jsstring) (f : MatchJob -> MatchJob)
    (prev : list MatchJob) : list MatchJob :=
  List.map (fun j => if Js.eqb (id j) target then f j else j) prev.

(** The [catch] block of [processJob]. *)
Definition caught (job : MatchJob) (e : js_error)
    : M (option (json * json)) :=
  console Err [] (Some e) ;;
  setJobs (update (id job) (with_error (message e))) ;;
  ret None.

Definition processJob (job : MatchJob) : M (option (json * json)) :=
  setJobs (update (id job) (with_status DOWNLOADING_JSON)) ;;
  r1 <- fetchMatchData (id job) stats ;;
  match r1 with
  | Throw e => caught job e
  | Ok statsData =>
      setJobs (update (id job) with_stats_downloaded) ;;
      delay 500 ;;
      r2 <- fetchMatchData (id job) moves ;;
      match r2 with
      | Throw e => caught job e
      | Ok movesData =>
          setJobs (update (id job) with_moves_completed) ;;
          ret (Some (statsData, movesData))
      end
  end.

Definition getZipName (customFilename defaultName : jsstring) : jsstring :=
  let name := Js.trim customFilename in
  if negb (nonempty name) then defaultName
  else if negb (Js.endsWith (js ".zip") (toLowerCase name))
  then name ++ js ".zip"
  else name.

(** The files one finished job adds to [allFiles]; [i] counts from 0.
    The names are made first: when [generateFilenames] throws, nothing is
    pushed. *)
Definition pushed (i : nat) (r : json * json) : result (list file) :=
  match generateFilenames (Some (fst r)) (Z.of_nat i + 1) with
  | Throw e => Throw e
  | Ok names =>
      Ok [ mkFile (statsName names) (fst r);
           mkFile (js "Moves/" ++ movesName names) (snd r) ]
  end.

(** [allFiles] after the [if (result) { ... }] block of a turn. *)
Definition collected (i : nat) (r : option (json * json))
    (allFiles : list file) : result (list file) :=
  match r with
  | Some docs =>
      match pushed i docs with
      | Throw e => Throw e
      | Ok files => Ok (allFiles ++ files)
      end
  | None => Ok allFiles
  end.

(** The queue loop of [handleBulkStart], from index [i] on.  The loop sits
    in the [try] block of the handler: an exception of [generateFilenames]
    leaves it at once, before the pause, and no later job is started. *)
Fixpoint bulk_loop (queue : list MatchJob) (i total : nat)
    (allFiles : list file) : M (result (list file)) :=
  match queue with
  | [] => ret (Ok allFiles)
  | job :: rest =>
      setJobs (update (id job) (with_status QUEUED)) ;;
      setStatusMessage (js "Processing " ++ Js.of_Z (Z.of_nat i + 1)
                        ++ js " of " ++ Js.of_Z (Z.of_nat total) ++ js "...") ;;
      r <- processJob job ;;
      match collected i r allFiles with
      | Throw e => ret (Throw e)
      | Ok allFiles' =>
          delay 1500 ;;
          bulk_loop rest (S i) total allFiles'
      end
  end.

(** Whether the turn of index [i] leaves the loop by an exception. *)
Definition leaves (i : nat) (r : option (json * json)) : bool :=
  match collected i r [] with
  | Throw _ => true
  | Ok _ => false
  end.

(** What [processJob] returned for each job that had its turn, in order:
    the same turns as [bulk_loop], keeping the results instead of the
    files. *)
Fixpoint bulk_results (queue : list MatchJob) (i total : nat)
    : M (list (option (json * json))) :=
  match queue with
  | [] => ret []
  | job :: rest =>
      setJobs (update (id job) (with_status QUEUED)) ;;
      setStatusMessage (js "Processing " ++ Js.of_Z (Z.of_nat i + 1)
                        ++ js " of " ++ Js.of_Z (Z.of_nat total) ++ js "...") ;;
      r <- processJob job ;;
      if leaves i r then ret [r]
      else
        delay 1500 ;;
        rs <- bulk_results rest (S i) total ;;
        ret (r :: rs)
  end.

Definition new_job (link : jsstring) : MatchJob :=
  let found := extractMatchId link in
  mkJob (match found with Some i => i | None => js "unknown" end)
        link IDLE false false None
        (Some (js "Match " ++ match found with
                              | Some i => i
                              | None => js "null"
                              end)).

Definition initialJobs (links : list jsstring) : list MatchJob :=
  filter (fun j => negb (Js.eqb (id j) (js "unknown")))
         (List.map new_job links).

(** [s.replace(/[:.]/g, '-')] *)
Definition dashes (s : jsstring) : jsstring :=
  List.map (fun c => if (c =? 58)%N || (c =? 46)%N then 45%N else c) s.

(** [handleBulkStart], with the input URL and the custom file name the
    component holds when the run starts.  The one [catch] of the handler
    receives what the listing fetch throws and what the loop throws
    alike. *)
Definition handleBulkStart (inputUrl customFilename : jsstring) : M unit :=
  setIsProcessing true ;;
  setJobs (fun _ => []) ;;
  setStatusMessage (js "Fetching result list page...") ;;
  r <- fetchResultsPage inputUrl ;;
  match r with
  | Throw e =>
      console Err [] (Some e) ;;
      setStatusMessage (js "Error fetching the list page. Check CORS or URL.") ;;
      setIsProcessing false
  | Ok links =>
      if Nat.eqb (List.length links) 0 then
        setStatusMessage (js "No statistics links found on that page.") ;;
        setIsProcessing false ;;
        setIsProcessing false
      else
        setStatusMessage (js "Found " ++ Js.of_Z (Z.of_nat (List.length links))
                          ++ js " matches. queuing...") ;;
        let queue := initialJobs links in
        setJobs (fun _ => queue) ;;
        looped <- bulk_loop queue 0 (List.length queue) [] ;;
        (match looped with
         | Throw e =>
             console Err [] (Some e) ;;
             setStatusMessage
               (js "Error fetching the list page. Check CORS or URL.")
         | Ok allFiles =>
             if Nat.ltb 0 (List.length allFiles) then
               iso <- Date_toISOString_ ;;
               let timestamp := dashes iso in
               let defaultName :=
                 js "bulk_matches_export_" ++ timestamp ++ js ".zip" in
               let zipFilename := getZipName customFilename defaultName in
               setStatusMessage (js "Compressing "
                                 ++ Js.of_Z (Z.of_nat (List.length allFiles))
                                 ++ js " files into one ZIP...") ;;
               _ <- downloadAsZip allFiles zipFilename ;;
               setStatusMessage (js "All jobs finished. ZIP downloaded.")
             else
               setStatusMessage
                 (js "Finished, but no files were successfully retrieved.")
         end) ;;
        setIsProcessing false
  end.


(** *** Readings of a run *)

Definition snapshots (evs : list event) : list (list MatchJob) :=
  flat_map (fun e => match e with EvJobs l => [l] | _ => [] end) evs.


(** The two flags of a job never go back from [true] to [false]. *)
Definition flags_le (j j' : MatchJob) : Prop :=
  (statsFileDownloaded j = true -> statsFileDownloaded j' = true)
  /\ (movesFileDownloaded j = true -> movesFileDownloaded j' = true).

(** Successive states of the job list, related pairwise. *)
Fixpoint chain (R : list MatchJob -> list MatchJob -> Prop)
    (first : list MatchJob) (later : list (list MatchJob)) : Prop :=
  match later with
  | [] => True
  | next :: rest => R first next /\ chain R next rest
  end.

Definition events_of {A : Type} (m : M A) (s : State) : list event :=
  snd (m s).

Definition state_after {A : Type} (m : M A) (s : State) : State :=
  snd (fst (m s)).

Definition value_of {A : Type} (m : M A) (s : State) : A :=
  fst (fst (m s)).

(** The events one call of [fetchMatchData] can perform: console lines,
    requests, and the one-second pauses between providers. *)
Definition transport_event (e : event) : Prop :=
  match e with
  | EvConsole _ _ _ => True
  | EvFetch _ _ => True
  | EvDelay ms => ms = 1000%Z
  | _ => False
  end.

(** An action that leaves the job list alone and only talks to the
    network and the console. *)
Definition quiet {A : Type} (m : M A) : Prop :=
  forall s,
    jobs (state_after m s) = jobs s
    /\ Forall transport_event (events_of m s).

(** An action under which the job list only moves along [R], and whose
    last snapshot is the list it leaves. *)
Definition steady (R : list MatchJob -> list MatchJob -> Prop)
    {A : Type} (m : M A) : Prop :=
  forall s,
    chain R (jobs s) (snapshots (events_of m s))
    /\ jobs (state_after m s) = last (snapshots (events_of m s)) (jobs s).

(** An action that leaves the run marked not in progress. *)
Definition ends_idle {A : Type} (m : M A) : Prop :=
  forall s, isProcessing (state_after m s) = false.

(** The state the [catch] block of [processJob] leaves. *)
Definition set_failed (job : MatchJob) (e : js_error) (s : State) : State :=
  state_after (setJobs (update (id job) (with_error (message e)))) s.

(** One turn of the queue loop, up to the return of [processJob]. *)
Definition turn (job : MatchJob) (i total : nat)
    : M (option (json * json)) :=
  setJobs (update (id job) (with_status QUEUED)) ;;
  setStatusMessage (js "Processing " ++ Js.of_Z (Z.of_nat i + 1)
                    ++ js " of " ++ Js.of_Z (Z.of_nat total) ++ js "...") ;;
  processJob job.

(** The pause between two jobs. *)
Definition paused (s : State) : State := state_after (delay 1500) s.

(** Where a job stands once [processJob] has returned [r] for it. *)
Definition settled (r : option (json * json)) (j : MatchJob) : Prop :=
  match r with
  | Some _ =>
      status j = COMPLETED /\ statsFileDownloaded j = true
      /\ movesFileDownloaded j = true
  | None => status j = ERROR /\ exists msg, error j = Some msg
  end.

(** The files of a run, from the results of its jobs; the first job has
    index [i]. *)
Fixpoint files_of (i : nat) (rs : list (option (json * json)))
    : result (list file) :=
  match rs with
  | [] => Ok []
  | r :: rest =>
      match collected i r [] with
      | Throw e => Throw e
      | Ok files =>
          match files_of (S i) rest with
          | Throw e => Throw e
          | Ok more => Ok (files ++ more)
          end
      end
  end.

(** Whether a call returned. *)
Definition returned {A : Type} (r : result A) : bool :=
  match r with Ok _ => true | Throw _ => false end.

(** The files a loop hands to the archive step: none when it was left by
    an exception. *)
Definition handed (r : result (list file)) : list file :=
  match r with Ok files => files | Throw _ => [] end.

(** Whether [processJob] returned the two documents. *)
Definition succeeded (r : option (json * json)) : bool :=
  match r with Some _ => true | None => false end.





Definition has_id (link : jsstring) : bool :=
  match extractMatchId link with Some _ => true | None => false end.

End App.

(* ================================================================== *)
(** ** The single-match handler *)

Section Single.

Context {B : Browser}.

(** [handleSingleStart], with the input URL and the custom file name the
    component holds when the run starts.  [extractMatchId] never returns
    the empty string, so [!id] is the [null] case.  The handler has no
    [try]: an exception of [generateFilenames] ends it where it stands,
    and the two last updates are not made. *)
Definition handleSingleStart (inputUrl customFilename : jsstring)
    : M (result unit) :=
  match extractMatchId inputUrl with
  | None =>
      setStatusMessage (js "Invalid URL. Could not extract Match ID.") ;;
      ret (Ok tt)
  | Some i =>
      setIsProcessing true ;;
      setStatusMessage (js "Starting download...") ;;
      let newJob :=
        mkJob i inputUrl QUEUED false false None
              (Some (js "Single Match Extraction")) in
      setJobs (fun _ => [newJob]) ;;
      result <- processJob newJob ;;
      zipped <-
        match result with
        | Some docs =>
            let defaultName := js "match_" ++ i ++ js ".zip" in
            let zipFilename := getZipName customFilename defaultName in
            match generateFilenames (Some (fst docs)) 1 with
            | Throw e => ret (Throw e)
            | Ok names =>
                let files := [ mkFile (statsName names) (fst docs);
                               mkFile (movesName names) (snd docs) ] in
                _ <- downloadAsZip files zipFilename ;;
                ret (Ok tt)
            end
        | None => ret (Ok tt)
        end ;;
      match zipped with
      | Throw e => ret (Throw e)
      | Ok _ =>
          setIsProcessing false ;;
          setStatusMessage (js "Finished.") ;;
          ret (Ok tt)
      end
  end.

Inductive run_mode : Type := single | bulk.

(** [handleStart]: neither handler is awaited, and nothing receives what
    the single handler throws. *)
Definition handleStart (mode : run_mode) (inputUrl customFilename : jsstring)
    : M unit :=
  match mode with
  | single => _ <- handleSingleStart inputUrl customFilename ;; ret tt
  | bulk => handleBulkStart inputUrl customFilename
  end.

(** *** More readings of a run *)

Definition zips (evs : list event) : list (list (jsstring * jsstring) * bool) :=
  flat_map (fun e => match e with EvZip l b => [(l, b)] | _ => [] end) evs.

Definition saves (evs : list event) : list jsstring :=
  flat_map (fun e => match e with EvSave n => [n] | _ => [] end) evs.

Definition delays (evs : list event) : list Z :=
  flat_map (fun e => match e with EvDelay ms => [ms] | _ => [] end) evs.

(** An action that builds no archive and saves nothing. *)
Definition zipless {A : Type} (m : M A) : Prop :=
  forall s, zips (events_of m s) = [] /\ saves (events_of m s) = [].


(** An action that sends at most [n] requests. *)
Definition at_most (n : nat) {A : Type} (m : M A) : Prop :=
  forall s, (List.length (requests (events_of m s)) <= n)%nat.

(** What no update of a job touches. *)
Definition same_identity (j j' : MatchJob) : Prop :=
  id j' = id j /\ url j' = url j /\ matchTitle j' = matchTitle j.

(** A recorded error stays recorded. *)
Definition error_kept (j j' : MatchJob) : Prop :=
  error j <> None -> error j' <> None.

(** The entries [downloadAsZip] hands to the archive. *)
Definition entries_of (files : list file) : list (jsstring * jsstring) :=
  List.map (fun f => (filename f, JSON_stringify (data f))) files.

(** The URL [fetchMatchData] asks for. *)
Definition targetUrl_of (matchId : jsstring) (type : data_type) : jsstring :=
  API_BASE ++ js "/" ++ endpoint type ++ js "/" ++ matchId
  ++ js "?currentSeason=true".

(** The error [fetchMatchData] throws for a text that does not parse. *)
Definition invalid_json : js_error :=
  Error (js "Invalid JSON response from server").

End Single.

(* ================================================================== *)
(** ** The job card *)

(** [getStatusColor] *)
Definition getStatusColor (st : ScrapeStatus) : jsstring :=
  match st with
  | COMPLETED => js "bg-green-500/10 border-green-500/50 text-green-500"
  | ERROR => js "bg-red-500/10 border-red-500/50 text-red-500"
  | DOWNLOADING_JSON
  | FETCHING_HTML => js "bg-blue-500/10 border-blue-500/50 text-blue-500"
  | QUEUED => js "bg-slate-700/50 border-slate-600 text-slate-400"
  | IDLE => js "bg-slate-800 border-slate-700 text-slate-400"
  end.

Inductive indicator : Type :=
  | CheckCircleIcon | XCircleIcon | Spinner | QueuedBadge.

Definition status_eqb (a b : ScrapeStatus) : bool :=
  match a, b with
  | IDLE, IDLE | QUEUED, QUEUED | FETCHING_HTML, FETCHING_HTML
  | DOWNLOADING_JSON, DOWNLOADING_JSON | COMPLETED, COMPLETED
  | ERROR, ERROR => true
  | _, _ => false
  end.

(** The four conditional elements at the right of the card, in order. *)
Definition indicators (st : ScrapeStatus) : list indicator :=
  (if status_eqb st COMPLETED then [CheckCircleIcon] else [])
  ++ (if status_eqb st ERROR then [XCircleIcon] else [])
  ++ (if status_eqb st DOWNLOADING_JSON || status_eqb st FETCHING_HTML
      then [Spinner] else [])
  ++ (if status_eqb st QUEUED then [QueuedBadge] else []).

(** [job.matchTitle || "Basketball Match Stats"] *)
Definition shown_title (job : MatchJob) : jsstring :=
  match matchTitle job with
  | Some t => if nonempty t then t else js "Basketball Match Stats"
  | None => js "Basketball Match Stats"
  end.

(** The class of the STATS and MOVES badges. *)
Definition badge_class (downloaded : bool) : jsstring :=
  if downloaded then js "bg-green-500 text-white border-green-600"
  else js "bg-slate-800 text-slate-500 border-slate-600".

(* ================================================================== *)
(** ** A scripted browser, for running the model on concrete inputs *)

Module Script.

(** The world is the list of answers the network still has to give, one
    per request, and whether archive generation is going to fail. *)
Record tape : Type := mkTape {
  answers : list (result Response);
  zip_fails : bool
}.

Definition next_answer (_ : jsstring) (w : tape) : result Response * tape :=
  match answers w with
  | r :: rest => (r, mkTape rest (zip_fails w))
  | [] => (Throw (Error (js "Failed to fetch")), w)
  end.

Definition envelope (code : Z) (contents : jsstring) : json :=
  JObj [ (js "contents", JStr contents);
         (js "status", JObj [ (js "http_code", JNum code) ]) ].

Definition payload : json :=
  JObj [ (js "teams",
          JArr [ JObj [ (js "data", JObj [ (js "score", JStr (js "88")) ]) ];
                 JObj [ (js "data", JObj [ (js "score", JStr (js "76")) ]) ] ]);
         (js "jornada", JNum 5) ].

(** A payload whose round is an object with a field named [toString]. *)
Definition odd_payload : json :=
  JObj [ (js "jornada", JObj [ (js "toString", JNum 1) ]) ].

(** The few texts the scripted answers use: two payloads, the empty list
    of moves, and around any text the envelope of a wrapped provider. *)
Definition parse (s : jsstring) : result json :=
  if Js.eqb s (js "STATS") then Ok payload
  else if Js.eqb s (js "ODD-STATS") then Ok odd_payload
  else if Js.eqb s (js "MOVES") then Ok (JArr [])
  else if Js.eqb s (js "WRAPPED-404") then Ok (envelope 404 (js "gone"))
  else if Js.startsWith (js "WRAPPED-") s then Ok (envelope 200 (skipn 8 s))
  else Throw (Error (js "Unexpected token in JSON")).

Definition lower (s : jsstring) : jsstring :=
  List.map (fun c => if (65 <=? c)%N && (c <=? 90)%N then (c + 32)%N else c) s.

Definition id1 : jsstring := js "696b6acdd2a7ac0001714803".
Definition id2 : jsstring := js "0123456789abcdef01234567".
Definition id3 : jsstring := js "ABCDEF0123456789abcdef01".

(** The anchors of the scripted pages: one match among other anchors; the
    same match twice, the second time with a closing slash; two matches;
    three matches. *)
Definition hrefs (html : jsstring) : list (option jsstring) :=
  if Js.eqb html (js "PAGE")
  then [ Some (js "/estadistiques/2025/" ++ id1); None;
         Some (js "/competicions/resultats/21639/0") ]
  else if Js.eqb html (js "PAGE-TWICE")
  then [ Some (js "/estadistiques/2025/" ++ id1);
         Some (js "/estadistiques/2025/" ++ id1 ++ js "/") ]
  else if Js.eqb html (js "PAGE-TWO")
  then [ Some (js "/estadistiques/2025/" ++ id1);
         Some (js "/estadistiques/2025/" ++ id2) ]
  else if Js.eqb html (js "PAGE-THREE")
  then [ Some (js "/estadistiques/2025/" ++ id1);
         Some (js "/estadistiques/2025/" ++ id2);
         Some (js "/estadistiques/2025/" ++ id3) ]
  else [].

(** The scripted documents are told apart by their kind only. *)
Definition stringify (j : json) : jsstring :=
  match j with
  | JArr _ => js "[]"
  | JObj _ => js "{}"
  | _ => js "null"
  end.

(** The digits of the two numbers the scripted runs may ask for: one half
    and ten to the power of twenty-one. *)
Definition digits (x : number) : jsstring :=
  match x with
  | Fraction 0 1 => js "0.5"
  | Integer 1000000000000000000000 => js "1e+21"
  | _ => []
  end.

Definition browser : Browser :=
  {| World := tape;
     Blob := unit;
     fetch := next_answer;
     Date_now := fun _ => 1767225600000%Z;
     Date_toISOString := fun _ => js "2026-01-01T00:00:00.000Z";
     setTimeout := fun _ w => w;
     encodeURIComponent := fun s => s;
     toLowerCase := lower;
     JSON_parse := parse;
     JSON_stringify := stringify;
     Number_toString := digits;
     anchor_hrefs := hrefs;
     zip_generateAsync := fun _ w =>
       if zip_fails w then (Throw (Error (js "out of memory")), w)
       else (Ok tt, w);
     save_as := fun _ _ w => w |}.

Definition answer (text : jsstring) : result Response :=
  Ok (mkResponse true 200 (Ok text)).

Definition refused : result Response := Throw (Error (js "Failed to fetch")).

(** The three refusals that exhaust the provider list. *)
Definition exhausted : list (result Response) := [refused; refused; refused].

Definition start (l : list (result Response)) (zf : bool) (q : list MatchJob)
    : @State browser :=
  @mkState browser (mkTape l zf) q false [].

Definition job (i link : jsstring) : MatchJob :=
  mkJob i link IDLE false false None None.

End Script.

(* ================================================================== *)
(** * Properties *)

(** ** Splitting on a separator *)

Lemma split_not_nil (sep : N) (s : jsstring) : Js.split sep s <> [].
Proof.
  destruct s as [|c r]; simpl; [discriminate|].
  destruct (Js.unit_eqb c sep); [discriminate|].
  destruct (Js.split sep r); discriminate.
Qed.

Lemma split_app_sep (sep : N) (a b : jsstring) :
  Js.split sep (a ++ sep :: b) = Js.split sep a ++ Js.split sep b.
Proof.
  induction a as [|c a IH]; simpl.
  - unfold Js.unit_eqb. now rewrite N.eqb_refl.
  - rewrite IH. destruct (Js.unit_eqb c sep); [reflexivity|].
    destruct (Js.split sep a) as [|h t] eqn:E; [|reflexivity].
    now apply split_not_nil in E.
Qed.

Lemma split_without_sep (sep : N) (s : jsstring) :
  (forall c, In c s -> c <> sep) -> Js.split sep s = [s].
Proof.
  induction s as [|c r IH]; intros H; simpl; [reflexivity|].
  unfold Js.unit_eqb. destruct (N.eqb_spec c sep) as [->|_].
  - exfalso. apply (H sep); [now left|reflexivity].
  - rewrite IH; [reflexivity|]. intros x Hx. apply H. now right.
Qed.

(** A string is its first chunk followed by the other chunks, each behind
    a separator. *)
Lemma split_join (sep : N) (s : jsstring) :
  exists h t, Js.split sep s = h :: t
              /\ s = h ++ List.concat (List.map (cons sep) t).
Proof.
  induction s as [|c r (h & t & E & J)]; simpl.
  - now exists [], [].
  - unfold Js.unit_eqb. destruct (N.eqb_spec c sep) as [->|_].
    + exists [], (h :: t). split; [now rewrite E|]. simpl. now rewrite <- J.
    + rewrite E. exists (c :: h), t. split; [reflexivity|]. simpl. now rewrite <- J.
Qed.

Lemma last_opt_snoc {A : Type} (l : list A) (x : A) :
  last_opt (l ++ [x]) = Some x.
Proof.
  induction l as [|y l IH]; [reflexivity|].
  simpl. destruct (l ++ [x]) eqn:E; [now destruct l|exact IH].
Qed.

Lemma last_opt_cons {A : Type} (x y : A) (l : list A) :
  last_opt (x :: y :: l) = last_opt (y :: l).
Proof. reflexivity. Qed.

Lemma filter_nonempty_slashes (n : nat) :
  filter nonempty (Js.split slash (repeat slash n)) = [].
Proof. induction n as [|n IH]; [reflexivity|exact IH]. Qed.

(** The chunks behind the last non-empty one are all empty. *)
Lemma last_chunk_tail (chunks : list jsstring) (c : jsstring) :
  last_opt (filter nonempty chunks) = Some c ->
  exists before n,
    List.concat (List.map (cons slash) chunks)
    = before ++ slash :: c ++ repeat slash n.
Proof.
  induction chunks as [|x chunks IH]; simpl; [discriminate|].
  destruct (nonempty x) eqn:Hx.
  - destruct (filter nonempty chunks) as [|y l] eqn:Hf.
    + intros [= <-]. exists [], (List.length chunks). simpl. f_equal. f_equal.
      clear IH. induction chunks as [|z chunks IH]; [reflexivity|].
      simpl in Hf. destruct (nonempty z) eqn:Hz; [discriminate|].
      destruct z; [|discriminate]. simpl. f_equal. now apply IH.
    + rewrite last_opt_cons. intros H. destruct (IH H) as (b & n & E).
      exists (slash :: x ++ b), n. rewrite E. simpl. now rewrite <- app_assoc.
  - intros H. destruct (IH H) as (b & n & E).
    exists (slash :: x ++ b), n. rewrite E. simpl. now rewrite <- app_assoc.
Qed.

Lemma is_hex_not_slash (c : N) : is_hex c = true -> c <> slash.
Proof. intros H ->. discriminate H. Qed.

Lemma hex24_chunk (i : jsstring) :
  is_hex24 i = true ->
  nonempty i = true /\ (forall c, In c i -> c <> slash).
Proof.
  unfold is_hex24, nonempty. intros H.
  apply andb_true_iff in H as [L F]. apply Nat.eqb_eq in L. split.
  - now rewrite L.
  - intros c Hc. apply is_hex_not_slash.
    now apply (proj1 (forallb_forall _ _) F).
Qed.

(** The identifier is read off the last non-empty chunk, whatever stands
    before it and however many slashes follow it. *)
Lemma extractMatchId_chunk (p c : jsstring) (n : nat) :
  p = [] \/ (exists p', p = p' ++ [slash]) ->
  nonempty c = true ->
  (forall x, In x c -> x <> slash) ->
  extractMatchId (p ++ c ++ repeat slash n)
  = if is_hex24 c then Some c else None.
Proof.
  intros Hp Hc Hs. unfold extractMatchId.
  assert (T : filter nonempty (Js.split slash (c ++ repeat slash n)) = [c]).
  { destruct n as [|n]; simpl.
    - rewrite app_nil_r, split_without_sep by exact Hs. simpl. now rewrite Hc.
    - change (slash :: repeat slash n) with ([slash] ++ repeat slash n).
      simpl. rewrite split_app_sep, filter_app, filter_nonempty_slashes.
      rewrite split_without_sep by exact Hs. simpl. now rewrite Hc. }
  assert (L : exists l, filter nonempty (Js.split slash (p ++ c ++ repeat slash n))
                        = l ++ [c]).
  { destruct Hp as [->|[p' ->]].
    - exists []. exact T.
    - exists (filter nonempty (Js.split slash p')).
      rewrite <- app_assoc. simpl. now rewrite split_app_sep, filter_app, T. }
  destruct L as [l ->]. rewrite last_opt_snoc, Hc. reflexivity.
Qed.

(** ** extractMatchId *)

Lemma extractMatchId_hex24 (url i : jsstring) :
  extractMatchId url = Some i -> is_hex24 i = true.
Proof.
  unfold extractMatchId.
  destruct (last_opt (filter nonempty (Js.split slash url))) as [c|];
    [|discriminate].
  destruct (nonempty c && is_hex24 c) eqn:T; [|discriminate].
  intros [= <-]. now apply andb_true_iff in T.
Qed.

(** C7, as amended: [extractMatchId] returns an identifier exactly when the
    last non-empty chunk of the whole URL string, cut at its slashes, is a
    string of 24 hexadecimal digits (either case), and then it returns that
    chunk; the chunk runs to the end of the string or to trailing slashes,
    so the text of a query string or a fragment belongs to it.  For every
    other URL the result is [null]. *)
Theorem extractMatchId_last_chunk (url i : jsstring) :
  extractMatchId url = Some i <->
  is_hex24 i = true
  /\ exists p n, url = p ++ i ++ repeat slash n
                 /\ (p = [] \/ exists p', p = p' ++ [slash]).
Proof.
  split.
  - unfold extractMatchId.
    destruct (last_opt (filter nonempty (Js.split slash url))) as [c|] eqn:L;
      [|discriminate].
    destruct (nonempty c && is_hex24 c) eqn:T; [|discriminate].
    intros [= <-]. apply andb_true_iff in T as [_ T]. split; [exact T|].
    destruct (split_join slash url) as (h & t & E & J). rewrite E in L.
    simpl in L. destruct (nonempty h) eqn:Hh.
    + destruct (filter nonempty t) as [|y l] eqn:Hf.
      * injection L as <-. exists [], (List.length t). split; [|now left].
        simpl. rewrite J at 1. f_equal. clear -Hf.
        induction t as [|z t IH]; [reflexivity|].
        simpl in Hf. destruct (nonempty z) eqn:Hz; [discriminate|].
        destruct z; [|discriminate]. simpl. f_equal. now apply IH.
      * rewrite last_opt_cons, <- Hf in L.
        destruct (last_chunk_tail _ _ L) as (b & n & Eb).
        exists (h ++ b ++ [slash]), n. split.
        -- rewrite J at 1. rewrite Eb. now rewrite <- !app_assoc.
        -- right. exists (h ++ b). now rewrite app_assoc.
    + destruct (last_chunk_tail _ _ L) as (b & n & Eb).
      exists (h ++ b ++ [slash]), n. split.
      * rewrite J at 1. rewrite Eb. now rewrite <- !app_assoc.
      * right. exists (h ++ b). now rewrite app_assoc.
  - intros (Hh & p & n & -> & Hp).
    destruct (hex24_chunk i Hh) as [Hne Hs].
    now rewrite extractMatchId_chunk, Hh.
Qed.

(** C7 as the specification states it fails: the last path segment of this
    URL is a 24-digit hexadecimal string, and no identifier comes out. *)
Lemma extractMatchId_path_segment_counterexample :
  let u := js "https://www.basquetcatala.cat/estadistiques/2025/696b6acdd2a7ac0001714803?currentSeason=true" in
  last_path_segment u = Some (js "696b6acdd2a7ac0001714803")
  /\ is_hex24 (js "696b6acdd2a7ac0001714803") = true
  /\ extractMatchId u = None.
Proof. vm_compute. repeat split. Qed.

Lemma path_part_stops (a q : jsstring) (c : N) :
  (forall x, In x a -> x <> 63%N /\ x <> 35%N) ->
  c = 63%N \/ c = 35%N ->
  path_part (a ++ c :: q) = a.
Proof.
  intros Ha Hc. induction a as [|x a IH]; simpl.
  - now destruct Hc as [-> | ->].
  - destruct (Ha x (or_introl eq_refl)) as [H1 H2].
    apply N.eqb_neq in H1, H2. rewrite H1, H2. simpl. f_equal.
    apply IH. intros y Hy. apply Ha. now right.
Qed.

(** C10, as amended: trailing slashes behind a valid identifier are
    tolerated; and when a query string or a fragment that holds no slash
    follows the identifier, the result is [null], although the last path
    segment of such a URL is the valid identifier. *)
Theorem extractMatchId_trailing_text (p i q : jsstring) (n : nat) (c : N) :
  is_hex24 i = true ->
  c = 63%N \/ c = 35%N ->
  (forall x, In x q -> x <> slash) ->
  extractMatchId (p ++ slash :: i ++ repeat slash n) = Some i
  /\ extractMatchId (p ++ slash :: i ++ c :: q) = None
  /\ ((forall x, In x p -> x <> 63%N /\ x <> 35%N) ->
      last_path_segment (p ++ slash :: i ++ c :: q) = Some i).
Proof.
  intros Hh Hc Hq. destruct (hex24_chunk i Hh) as [Hne Hs].
  assert (Pre : p ++ [slash] = [] \/ exists p', p ++ [slash] = p' ++ [slash])
    by (right; now exists p).
  split; [|split].
  - change (p ++ slash :: i ++ repeat slash n)
      with (p ++ [slash] ++ i ++ repeat slash n).
    rewrite app_assoc, extractMatchId_chunk, Hh; auto.
  - assert (E : p ++ slash :: i ++ c :: q
                = (p ++ [slash]) ++ (i ++ c :: q) ++ repeat slash 0).
    { simpl. now rewrite app_nil_r, <- app_assoc. }
    rewrite E, extractMatchId_chunk; auto.
    + unfold is_hex24. rewrite length_app. simpl.
      apply andb_true_iff in Hh as [L _]. apply Nat.eqb_eq in L. rewrite L.
      replace (24 + S (List.length q))%nat with (S (24 + List.length q)) by lia.
      reflexivity.
    + destruct i; [discriminate Hne|reflexivity].
    + intros x Hx. apply in_app_or in Hx as [Hx|[<-|Hx]]; auto.
      destruct Hc as [-> | ->]; discriminate.
  - intros Hp. unfold last_path_segment.
    assert (E : p ++ slash :: i ++ c :: q = (p ++ slash :: i) ++ c :: q).
    { now rewrite <- app_assoc. }
    rewrite E, path_part_stops; auto.
    + change (p ++ slash :: i) with (p ++ [slash] ++ i).
      simpl. rewrite split_app_sep, filter_app.
      rewrite (split_without_sep slash i Hs).
      simpl. rewrite Hne. apply last_opt_snoc.
    + intros x Hx. apply in_app_or in Hx as [Hx|[<-|Hx]]; auto.
      * split; discriminate.
      * apply andb_true_iff in Hh as [_ F].
        pose proof (proj1 (forallb_forall _ _) F x Hx) as Hx'.
        split; intros ->; discriminate Hx'.
Qed.

(** Two trailing slashes are skipped; the query string of the data
    endpoints hides the identifier. *)
Lemma extractMatchId_trailing_text_witness :
  extractMatchId (js "https://www.basquetcatala.cat/estadistiques/2025/696b6acdd2a7ac0001714803//")
  = Some (js "696b6acdd2a7ac0001714803")
  /\ extractMatchId (js "https://www.basquetcatala.cat/estadistiques/2025/696b6acdd2a7ac0001714803?currentSeason=true")
     = None.
Proof.
  pose proof (extractMatchId_trailing_text
                (js "https://www.basquetcatala.cat/estadistiques/2025")
                (js "696b6acdd2a7ac0001714803") (js "currentSeason=true")
                2 63%N) as H.
  destruct H as (H1 & H2 & _).
  - reflexivity.
  - now left.
  - intros x Hx. vm_compute in Hx.
    repeat (destruct Hx as [<-|Hx]; [discriminate|]). destruct Hx.
  - split; [exact H1|exact H2].
Defined.

(** C10 as stated fails: a query string follows the identifier segment,
    and an identifier still comes out, read off the query string. *)
Lemma extractMatchId_query_counterexample :
  let u := js "https://www.basquetcatala.cat/estadistiques/2025/696b6acdd2a7ac0001714803?next=/a/0123456789abcdef01234567" in
  last_path_segment u = Some (js "696b6acdd2a7ac0001714803")
  /\ extractMatchId u = Some (js "0123456789abcdef01234567").
Proof. vm_compute. split; reflexivity. Qed.

(** ** generateFilenames *)

Lemma member_truthy (v : value) (k : jsstring) :
  member v k <> None -> truthy v = true.
Proof. destruct v as [[]|]; simpl; congruence. Qed.

Lemma falsy_has_no_member (v : value) (k : jsstring) :
  truthy v = false -> member v k = None.
Proof. destruct v as [[]|]; simpl; congruence. Qed.

Section Names.

Context {B : Browser}.

Lemma nested_score_truthy (t : value) (i : nat) (v : json) :
  member (member (at_index t i) (js "data")) (js "score") = Some v ->
  truthy t = true.
Proof.
  destruct t as [[| | |s| | | |]|]; try discriminate; try reflexivity.
  unfold at_index. destruct (nth_error s i); discriminate.
Qed.

(** The nest of guards around a score comes down to the first place that
    holds a value. *)
Lemma score_guards (stats : value) (i : nat) (top : jsstring) :
  trimmed
    (if truthy stats then
       if truthy (member stats (js "teams"))
          && defined (member (member (at_index (member stats (js "teams")) i)
                                     (js "data")) (js "score"))
       then String_ (member (member (at_index (member stats (js "teams")) i)
                                    (js "data")) (js "score"))
       else if defined (member stats top)
       then String_ (member stats top)
       else if truthy (member stats (js "match"))
               && defined (member (member stats (js "match")) top)
       then String_ (member (member stats (js "match")) top)
       else Ok (js "0")
     else Ok (js "0"))
  = score_when_defined stats i top.
Proof.
  unfold score_when_defined. destruct (truthy stats) eqn:T.
  - destruct (member (member (at_index (member stats (js "teams")) i)
                             (js "data")) (js "score")) as [v|] eqn:N.
    + now rewrite (nested_score_truthy _ _ _ N).
    + rewrite andb_false_r. cbn [first_defined].
      destruct (member stats top) as [v|]; [reflexivity|].
      cbn [defined first_defined].
      destruct (member (member stats (js "match")) top) as [v|] eqn:M.
      * rewrite (member_truthy (member stats (js "match")) top);
          [reflexivity|]. rewrite M. discriminate.
      * rewrite andb_false_r. reflexivity.
  - rewrite (falsy_has_no_member stats (js "teams") T).
    rewrite (falsy_has_no_member stats top T).
    rewrite (falsy_has_no_member stats (js "match") T). reflexivity.
Qed.

Lemma round_guards (stats : value) :
  trimmed
    (if truthy stats then
       if truthy (member stats (js "jornada"))
       then String_ (member stats (js "jornada"))
       else if truthy (member stats (js "match"))
               && truthy (member (member stats (js "match")) (js "jornada"))
       then String_ (member (member stats (js "match")) (js "jornada"))
       else Ok (js "0")
     else Ok (js "0"))
  = round_when_truthy stats.
Proof.
  unfold round_when_truthy. destruct (truthy stats) eqn:T.
  - destruct (truthy (member stats (js "jornada"))); [reflexivity|].
    destruct (truthy (member (member stats (js "match")) (js "jornada")))
      eqn:T'.
    + rewrite (member_truthy (member stats (js "match")) (js "jornada"));
        [reflexivity|].
      intros H. rewrite H in T'. discriminate.
    + rewrite andb_false_r. reflexivity.
  - rewrite (falsy_has_no_member stats (js "jornada") T).
    rewrite (falsy_has_no_member stats (js "match") T). reflexivity.
Qed.

(** Three conversions in a row, then the names. *)
Lemma names_after (jornada pl pv : result jsstring) (index : Z) :
  match jornada with
  | Throw e => Throw e
  | Ok jornada =>
      match pl with
      | Throw e => Throw e
      | Ok pl =>
          match pv with
          | Throw e => Throw e
          | Ok pv =>
              Ok {| statsName := js "J" ++ Js.trim jornada ++ js "_P"
                                 ++ Js.of_Z index ++ js "_" ++ Js.trim pl
                                 ++ js "_" ++ Js.trim pv ++ js ".json";
                    movesName := js "J" ++ Js.trim jornada ++ js "_P"
                                 ++ Js.of_Z index ++ js "_Moves.json" |}
          end
      end
  end
  = match trimmed jornada with
    | Throw e => Throw e
    | Ok x =>
        match trimmed pl with
        | Throw e => Throw e
        | Ok pl_clean =>
            match trimmed pv with
            | Throw e => Throw e
            | Ok pv_clean => Ok (names_of x index pl_clean pv_clean)
            end
        end
    end.
Proof. destruct jornada, pl, pv; reflexivity. Qed.

(** [generateFilenames] in one equation: the round, the home score and the
    away score are converted in this order, and the first conversion that
    throws decides. *)
Lemma generateFilenames_eq (stats : value) (index : Z) :
  generateFilenames stats index
  = match round_when_truthy stats with
    | Throw e => Throw e
    | Ok x =>
        match score_when_defined stats 0 (js "resultatLocal") with
        | Throw e => Throw e
        | Ok pl =>
            match score_when_defined stats 1 (js "resultatVisitant") with
            | Throw e => Throw e
            | Ok pv => Ok (names_of x index pl pv)
            end
        end
    end.
Proof.
  unfold generateFilenames. cbv zeta.
  now rewrite names_after, round_guards, !score_guards.
Qed.

Lemma generateFilenames_names (stats : value) (index : Z)
    (names : filenames) :
  generateFilenames stats index = Ok names ->
  exists x pl pv, names = names_of x index pl pv.
Proof.
  rewrite generateFilenames_eq.
  destruct (round_when_truthy stats) as [x|e]; [|discriminate].
  destruct (score_when_defined stats 0 _) as [pl|e]; [|discriminate].
  destruct (score_when_defined stats 1 _) as [pv|e]; [|discriminate].
  intros [= <-]. now exists x, pl, pv.
Qed.

(** C3, as amended: the round is the top-level round field when that field
    is truthy, else the field under [match] when truthy, else the
    placeholder [0].  When the value chosen for the round does not convert
    to text the call throws what the conversion throws; when it does, the
    call returns names that bear the round, unless the conversion of a
    score throws, the home score first.  The two examples of the claim
    hold as stated. *)
Theorem generateFilenames_round (stats : value) (index : Z) :
  match round_when_truthy stats with
  | Throw e => generateFilenames stats index = Throw e
  | Ok x =>
      match generateFilenames stats index with
      | Ok names =>
          movesName names
          = js "J" ++ x ++ js "_P" ++ Js.of_Z index ++ js "_Moves.json"
          /\ exists pl pv,
               score_when_defined stats 0 (js "resultatLocal") = Ok pl
               /\ score_when_defined stats 1 (js "resultatVisitant") = Ok pv
               /\ statsName names
                  = js "J" ++ x ++ js "_P" ++ Js.of_Z index
                    ++ js "_" ++ pl ++ js "_" ++ pv ++ js ".json"
      | Throw e =>
          score_when_defined stats 0 (js "resultatLocal") = Throw e
          \/ (exists pl,
                score_when_defined stats 0 (js "resultatLocal") = Ok pl
                /\ score_when_defined stats 1 (js "resultatVisitant")
                   = Throw e)
      end
  end
  /\ generateFilenames (Some Script.payload) 3
     = Ok (mkNames (js "J5_P3_88_76.json") (js "J5_P3_Moves.json"))
  /\ generateFilenames undefined 1
     = Ok (mkNames (js "J0_P1_0_0.json") (js "J0_P1_Moves.json")).
Proof.
  split; [|split; reflexivity].
  rewrite generateFilenames_eq.
  destruct (round_when_truthy stats) as [x|e]; [|reflexivity].
  destruct (score_when_defined stats 0 (js "resultatLocal")) as [pl|e];
    [|now left].
  destruct (score_when_defined stats 1 (js "resultatVisitant")) as [pv|e].
  - split; [reflexivity|]. now exists pl, pv.
  - right. now exists pl.
Qed.

End Names.

(** C3 as stated fails.  The top-level round field is present, with the
    value 0, and the round is taken from under [match]; and a top-level
    round field that is an object with a field named [toString] is
    present too, and no names are returned at all. *)
Lemma generateFilenames_present_counterexample :
  let p := JObj [ (js "jornada", JNum 0);
                  (js "match", JObj [ (js "jornada", JNum 7) ]) ] in
  (member (Some p) (js "jornada") = Some (JNum 0)
   /\ round_when_present (B := Script.browser) (Some p) = Ok (js "0")
   /\ generateFilenames (B := Script.browser) (Some p) 1
      = Ok (mkNames (js "J7_P1_0_0.json") (js "J7_P1_Moves.json")))
  /\ member (Some Script.odd_payload) (js "jornada")
     = Some (JObj [ (js "toString", JNum 1) ])
  /\ generateFilenames (B := Script.browser) (Some Script.odd_payload) 1
     = Throw not_primitive.
Proof. vm_compute. repeat split. Qed.

(** ** Link extraction *)

Lemma eqb_eq (a b : jsstring) : Js.eqb a b = true <-> a = b.
Proof.
  revert b. induction a as [|x a IH]; intros [|y b]; simpl;
    try (split; [discriminate|discriminate]); [tauto|].
  unfold Js.unit_eqb. rewrite andb_true_iff, N.eqb_eq, IH.
  split; [intros [-> ->]; reflexivity|intros [= -> ->]; auto].
Qed.

Lemma eqb_refl (a : jsstring) : Js.eqb a a = true.
Proof. now apply eqb_eq. Qed.

Lemma seen_In (x : jsstring) (seen : list jsstring) :
  existsb (Js.eqb x) seen = true <-> In x seen.
Proof.
  rewrite existsb_exists. split.
  - intros (y & Hy & E). apply eqb_eq in E. now subst.
  - intros H. exists x. split; [exact H|apply eqb_refl].
Qed.

Lemma Array_from_Set_In (seen l : list jsstring) (u : jsstring) :
  In u (Array_from_Set seen l) <-> In u l /\ ~ In u seen.
Proof.
  revert seen. induction l as [|x t IH]; intros seen; simpl; [tauto|].
  destruct (existsb (Js.eqb x) seen) eqn:E.
  - apply seen_In in E. rewrite IH. split.
    + intros [H1 H2]. auto.
    + intros [[<-|H1] H2]; [contradiction|auto].
  - assert (N : ~ In x seen) by (rewrite <- seen_In, E; discriminate).
    simpl. rewrite IH. simpl. split.
    + intros [<-|[H1 H2]]; auto.
    + intros [[<-|H1] H2]; [now left|].
      destruct (list_eq_dec N.eq_dec x u) as [<-|D]; [now left|].
      right. split; [exact H1|]. intros [H|H]; auto.
Qed.

Lemma Array_from_Set_NoDup (seen l : list jsstring) :
  NoDup (Array_from_Set seen l).
Proof.
  revert seen. induction l as [|x t IH]; intros seen; simpl; [constructor|].
  destruct (existsb (Js.eqb x) seen); [apply IH|].
  constructor; [|apply IH].
  rewrite Array_from_Set_In. intros [_ H]. apply H. now left.
Qed.

(** A set keeps its elements in insertion order: a string met again later
    changes nothing, a new one goes to the end. *)
Lemma Array_from_Set_snoc (seen l : list jsstring) (x : jsstring) :
  Array_from_Set seen (l ++ [x])
  = if existsb (Js.eqb x) (seen ++ l)
    then Array_from_Set seen l
    else Array_from_Set seen l ++ [x].
Proof.
  revert seen. induction l as [|y t IH]; intros seen; simpl.
  - rewrite app_nil_r. now destruct (existsb (Js.eqb x) seen).
  - destruct (existsb (Js.eqb y) seen) eqn:E.
    + rewrite IH. rewrite !existsb_app. simpl.
      destruct (existsb (Js.eqb x) seen) eqn:Ex; [reflexivity|].
      destruct (Js.eqb x y) eqn:Exy; [|reflexivity].
      apply eqb_eq in Exy. subst. congruence.
    + rewrite IH. rewrite !existsb_app. simpl.
      destruct (Js.eqb x y), (existsb (Js.eqb x) seen),
        (existsb (Js.eqb x) t); reflexivity.
Qed.

Lemma filter_hrefs_In (hrefs : list (option jsstring)) (h : jsstring) :
  In h (filter_hrefs hrefs)
  <-> In (Some h) hrefs /\ Js.includes (js "/estadistiques/") h = true.
Proof.
  induction hrefs as [|a rest IH]; simpl; [tauto|].
  destruct a as [x|]; simpl.
  - destruct (Js.includes (js "/estadistiques/") x) eqn:E; simpl; rewrite IH.
    + split.
      * intros [<-|[H1 H2]]; auto.
      * intros [[[= <-]|H1] H2]; auto.
    + split.
      * intros [H1 H2]; auto.
      * intros [[[= <-]|H1] H2]; [congruence|auto].
  - rewrite IH. split.
    + intros [H1 H2]; auto.
    + intros [[H|H1] H2]; [discriminate|auto].
Qed.

Lemma filter_hrefs_snoc (hrefs : list (option jsstring)) (a : option jsstring) :
  filter_hrefs (hrefs ++ [a])
  = filter_hrefs hrefs ++ match wanted a with Some h => [h] | None => [] end.
Proof.
  induction hrefs as [|b rest IH]; simpl.
  - now destruct (wanted a).
  - rewrite IH. now destruct (wanted b).
Qed.

(** C8, as amended: the extraction returns each distinct normalized
    match-statistics URL exactly once, in document order, a URL keeping the
    place of its first occurrence; an href that does not begin with [http]
    is made absolute by putting the site origin before it (and a slash
    when it has none), an href that begins with [http] is kept as it is;
    a page without matching links gives the empty list. *)
Theorem extractMatchLinks_ordered_set (hrefs : list (option jsstring)) :
  NoDup (extractMatchLinks hrefs)
  /\ (forall u, In u (extractMatchLinks hrefs)
                <-> exists h, In (Some h) hrefs
                              /\ Js.includes (js "/estadistiques/") h = true
                              /\ u = normalize h)
  /\ (forall a,
        extractMatchLinks (hrefs ++ [a])
        = match wanted a with
          | Some h =>
              if existsb (Js.eqb (normalize h)) (extractMatchLinks hrefs)
              then extractMatchLinks hrefs
              else extractMatchLinks hrefs ++ [normalize h]
          | None => extractMatchLinks hrefs
          end)
  /\ (forall h,
        normalize h
        = if Js.startsWith (js "http") h then h
          else if Js.startsWith (js "/") h then BASE_URL ++ h
          else BASE_URL ++ js "/" ++ h)
  /\ ((forall h, In (Some h) hrefs
                 -> Js.includes (js "/estadistiques/") h = false)
      -> extractMatchLinks hrefs = []).
Proof.
  unfold extractMatchLinks, statsLinks.
  split; [apply Array_from_Set_NoDup|].
  split.
  { intros u. rewrite Array_from_Set_In, in_map_iff. split.
    - intros [(h & <- & Hh) _]. apply filter_hrefs_In in Hh as [H1 H2].
      now exists h.
    - intros (h & H1 & H2 & ->). split; [|intros []].
      exists h. split; [reflexivity|]. now apply filter_hrefs_In. }
  split.
  { intros a. rewrite filter_hrefs_snoc, map_app.
    destruct (wanted a) as [h|]; simpl.
    - rewrite Array_from_Set_snoc. simpl.
      set (l := List.map normalize (filter_hrefs hrefs)).
      assert (E : existsb (Js.eqb (normalize h)) (Array_from_Set [] l)
                  = existsb (Js.eqb (normalize h)) l).
      { apply eq_true_iff_eq. rewrite !seen_In, Array_from_Set_In. tauto. }
      now rewrite E.
    - now rewrite app_nil_r. }
  split.
  { intros h. unfold normalize.
    destruct (Js.startsWith (js "http") h); [reflexivity|].
    now destruct (Js.startsWith (js "/") h). }
  intros H. replace (filter_hrefs hrefs) with (@nil jsstring); [reflexivity|].
  symmetry. destruct (filter_hrefs hrefs) as [|x l] eqn:E; [reflexivity|].
  assert (Hx : In x (filter_hrefs hrefs)) by (rewrite E; now left).
  apply filter_hrefs_In in Hx as [H1 H2]. rewrite (H x H1) in H2. discriminate.
Qed.

(** C8 as stated fails: this href is relative, and it comes out as it
    went in, not as an absolute URL on the site origin. *)
Lemma extractMatchLinks_relative_counterexample :
  let h := js "httpx/estadistiques/1" in
  relative h = true
  /\ extractMatchLinks [Some h] = [h]
  /\ Js.startsWith BASE_URL h = false.
Proof. vm_compute. repeat split. Qed.

(** ** The resource fetcher *)

Lemma trimStart_blank (s : jsstring) :
  Js.blank s = true -> Js.trimStart s = [].
Proof.
  induction s as [|c r IH]; simpl; [reflexivity|].
  intros H. apply andb_true_iff in H as [Hc Hr]. rewrite Hc. auto.
Qed.

Lemma trimStart_keeps (s : jsstring) :
  Js.blank s = false ->
  exists c r, Js.trimStart s = c :: r /\ Js.is_whitespace c = false.
Proof.
  induction s as [|c r IH]; simpl; [discriminate|].
  destruct (Js.is_whitespace c) eqn:Hc; simpl.
  - exact IH.
  - intros _. now exists c, r.
Qed.

Lemma trimStart_snoc (l : jsstring) (c : N) :
  Js.is_whitespace c = false -> Js.trimStart (l ++ [c]) <> [].
Proof.
  intros Hc. induction l as [|x l IH]; simpl.
  - rewrite Hc. discriminate.
  - destruct (Js.is_whitespace x); [exact IH|discriminate].
Qed.

(** [s.trim().length === 0] holds of the blank strings and of no other. *)
Lemma trim_length_blank (s : jsstring) :
  Nat.eqb (List.length (Js.trim s)) 0 = Js.blank s.
Proof.
  unfold Js.trim, Js.trimEnd. destruct (Js.blank s) eqn:E.
  - rewrite (trimStart_blank s E). reflexivity.
  - destruct (trimStart_keeps s E) as (c & r & -> & Hc). simpl.
    pose proof (trimStart_snoc (rev r) c Hc) as H.
    destruct (Js.trimStart (rev r ++ [c])) as [|y l]; [congruence|].
    simpl. rewrite length_app. simpl.
    replace (List.length (rev l) + 1)%nat with (S (List.length (rev l))) by lia.
    reflexivity.
Qed.

Lemma check_text_ok (v : value) (text : jsstring) :
  check_text v = Ok text -> v = Some (JStr text) /\ Js.blank text = false.
Proof.
  unfold check_text. destruct (truthy v); simpl; [|discriminate].
  destruct v as [[| | |t| | | |]|]; try discriminate.
  rewrite trim_length_blank. destruct (Js.blank t) eqn:E; [discriminate|].
  intros [= ->]. split; [reflexivity|exact E].
Qed.

Lemma check_text_accepts (text : jsstring) :
  Js.blank text = false -> check_text (Some (JStr text)) = Ok text.
Proof.
  intros H. unfold check_text.
  destruct text as [|c t]; [discriminate|]. cbn [truthy nonempty negb].
  now rewrite trim_length_blank, H.
Qed.

Lemma check_text_blank (text : jsstring) :
  Js.blank text = true ->
  check_text (Some (JStr text))
  = Throw (Error (js "Received empty response body")).
Proof.
  intros H. unfold check_text. destruct (truthy (Some (JStr text)));
    simpl; [|reflexivity].
  now rewrite trim_length_blank, H.
Qed.

Section Fetcher.

Context {B : Browser}.

Lemma decode_ok_not_blank (p : ProxyProvider) (o : result Response)
    (text : jsstring) :
  decode p o = Ok text -> Js.blank text = false.
Proof.
  unfold decode. destruct o as [response|e]; [|discriminate].
  destruct (negb (resp_ok response)); [discriminate|].
  destruct (isWrapped p).
  - destruct (resp_body response) as [raw|e]; [|discriminate].
    destruct (JSON_parse raw) as [j|e]; [|discriminate].
    match goal with |- (if ?c then _ else _) = _ -> _ => destruct c end;
      [|now destruct (String_ _)].
    intros H. now apply check_text_ok in H.
  - destruct (resp_body response) as [t|e]; [|discriminate].
    intros H. now apply check_text_ok in H.
Qed.

Lemma requests_app (a b : list event) :
  requests (a ++ b) = requests a ++ requests b.
Proof. apply flat_map_app. Qed.

(** One turn: the request goes out and its answer is weighed. *)
Lemma attempt_run (p : ProxyProvider) (u : jsstring) (s : State) :
  attempt p u s
  = (decode p (fst (fetch (getUrl p u) (world s))),
     with_world (snd (fetch (getUrl p u) (world s))) s,
     [EvConsole Log (js "Attempting fetch via " ++ name p ++ js "...") None;
      EvFetch (getUrl p u) (fst (fetch (getUrl p u) (world s)))]).
Proof.
  unfold attempt, bind, console, emit, do_fetch, ret.
  destruct (fetch (getUrl p u) (world s)) as [o w]. reflexivity.
Qed.

Lemma final_error_cons (lastError : option js_error) (e : js_error)
    (vs : list (result jsstring)) :
  final_error (Some e) vs = final_error lastError (Throw e :: vs).
Proof. reflexivity. Qed.

Lemma fallback_pass (providers : list ProxyProvider) (u : jsstring)
    (lastError : option js_error) (s : State) :
  let '(r, _, evs) := fallback providers u lastError s in
  exists tried rest outcomes,
    providers = tried ++ rest
    /\ List.length outcomes = List.length tried
    /\ requests evs
       = combine (List.map (fun p => getUrl p u) tried) outcomes
    /\ match r with
       | Ok text =>
           exists before p outs o,
             tried = before ++ [p] /\ outcomes = outs ++ [o]
             /\ List.length outs = List.length before
             /\ Forall failed (verdicts before outs)
             /\ decode p o = Ok text
             /\ Js.blank text = false
       | Throw e =>
           rest = []
           /\ Forall failed (verdicts tried outcomes)
           /\ e = final_error lastError (verdicts tried outcomes)
       end.
Proof.
  revert lastError s.
  induction providers as [|p ps IH]; intros lastError s.
  - simpl. exists [], [], []. repeat split; constructor.
  - simpl. unfold bind at 1. rewrite attempt_run.
    set (o := fst (fetch (getUrl p u) (world s))).
    set (s1 := with_world (snd (fetch (getUrl p u) (world s))) s).
    destruct (decode p o) as [text|e] eqn:D.
    + simpl. exists [p], ps, [o]. repeat split.
      exists [], p, [], o. repeat split; [constructor|exact D|].
      exact (decode_ok_not_blank p o text D).
    + unfold bind, console, emit, delay.
      specialize (IH (Some e)
                     (with_world (setTimeout 1000 (world s1)) s1)).
      destruct (fallback ps u (Some e)
                  (with_world (setTimeout 1000 (world s1)) s1))
        as [[r s2] evs].
      destruct IH as (tried & rest & outcomes & E1 & E2 & E3 & E4).
      exists (p :: tried), rest, (o :: outcomes).
      split; [now rewrite E1|]. split; [simpl; now rewrite E2|].
      split.
      { rewrite !requests_app, E3. reflexivity. }
      destruct r as [text|e'].
      * destruct E4 as (before & p' & outs & o' & F1 & F2 & F3 & F4 & F5 & F6).
        exists (p :: before), p', (o :: outs), o'.
        split; [now rewrite F1|]. split; [now rewrite F2|].
        split; [simpl; now rewrite F3|].
        split; [|split; assumption].
        unfold verdicts. simpl. constructor; [now exists e|exact F4].
      * destruct E4 as (F1 & F2 & F3).
        split; [exact F1|]. split.
        -- unfold verdicts. simpl. constructor; [now exists e|exact F2].
        -- unfold verdicts. simpl. rewrite D. rewrite F3.
           apply final_error_cons.
Qed.

(** C1: whatever the target URL and the list of providers, the fetcher
    sends one request per provider, in list order, and stops at the
    first answer that decodes to a body that is neither empty nor white
    space only, which it returns; every earlier attempt failed and no
    later provider is tried.  A blank body is a failed attempt even under
    a success status, and a body that is not blank is accepted under a
    success status, as it stands: the text of the response for a raw
    provider, the string under [contents] of an envelope whose embedded
    code is 200 for a wrapped one.  When the answer to the first provider
    is accepted the fetcher returns that body after this one request.
    When no attempt succeeds, every provider has been tried once, and the
    error raised is the failure of the last attempt (the fixed error when
    there is no provider at all).  With a first provider that is refused
    and a second that serves [X], the fetcher returns [X] and the third
    provider is never asked. *)
Theorem fetchText_first_success (providers : list ProxyProvider)
    (targetUrl : jsstring) (s : State) :
  (let u := cache_busted targetUrl (Date_now (world s)) in
   let '(r, _, evs) := fetchTextWithFallback_over providers targetUrl s in
   exists tried rest outcomes,
     providers = tried ++ rest
     /\ List.length outcomes = List.length tried
     /\ requests evs
        = combine (List.map (fun p => getUrl p u) tried) outcomes
     /\ match r with
        | Ok text =>
            exists before p outs o,
              tried = before ++ [p] /\ outcomes = outs ++ [o]
              /\ List.length outs = List.length before
              /\ Forall failed (verdicts before outs)
              /\ decode p o = Ok text
              /\ Js.blank text = false
        | Throw e =>
            rest = []
            /\ Forall failed (verdicts tried outcomes)
            /\ e = final_error None (verdicts tried outcomes)
        end)
  /\ (forall p code text,
        Js.blank text = true ->
        isWrapped p = false ->
        decode p (Ok (mkResponse true code (Ok text)))
        = Throw (Error (js "Received empty response body")))
  /\ (forall p code raw j text,
        Js.blank text = true ->
        isWrapped p = true ->
        JSON_parse raw = Ok j ->
        is_200 (member (member (Some j) (js "status")) (js "http_code")) = true ->
        member (Some j) (js "contents") = Some (JStr text) ->
        decode p (Ok (mkResponse true code (Ok raw)))
        = Throw (Error (js "Received empty response body")))
  /\ (forall p code text,
        Js.blank text = false ->
        isWrapped p = false ->
        decode p (Ok (mkResponse true code (Ok text))) = Ok text)
  /\ (forall p code raw j text,
        Js.blank text = false ->
        isWrapped p = true ->
        JSON_parse raw = Ok j ->
        member (member (Some j) (js "status")) (js "http_code")
        = Some (JNum 200) ->
        member (Some j) (js "contents") = Some (JStr text) ->
        decode p (Ok (mkResponse true code (Ok raw))) = Ok text)
  /\ (forall p rest text,
        let u := cache_busted targetUrl (Date_now (world s)) in
        let answer := fetch (getUrl p u) (world s) in
        decode p (fst answer) = Ok text ->
        fetchTextWithFallback_over (p :: rest) targetUrl s
        = (Ok text, with_world (snd answer) s,
           [EvConsole Log (js "Attempting fetch via " ++ name p ++ js "...")
                      None;
            EvFetch (getUrl p u) (fst answer)]))
  /\ (let A := mkProvider (js "A") (fun t => js "https://a.example/" ++ t)
                          false in
      let P := mkProvider (js "B") (fun t => js "https://b.example/" ++ t)
                          false in
      let C := mkProvider (js "C") (fun t => js "https://c.example/" ++ t)
                          false in
      let run := fetchTextWithFallback_over (B := Script.browser) [A; P; C]
                   (js "page")
                   (Script.start [Script.refused; Script.answer (js "X");
                                  Script.answer (js "Y")] false []) in
      fst (fst run) = Ok (js "X")
      /\ List.map fst (requests (snd run))
         = [ js "https://a.example/page?__t=1767225600000";
             js "https://b.example/page?__t=1767225600000" ]).
Proof.
  split; [|split; [|split; [|split; [|split; [|split]]]]].
  - unfold fetchTextWithFallback_over, bind, Date_now_.
    pose proof (fallback_pass providers
                  (cache_busted targetUrl (Date_now (world s))) None s) as H.
    cbv zeta.
    destruct (fallback providers
                (cache_busted targetUrl (Date_now (world s))) None s)
      as [[r s2] evs].
    exact H.
  - intros p code text Hb W. unfold decode.
    cbn [resp_ok resp_body negb]. rewrite W.
    now apply check_text_blank.
  - intros p code raw j text Hb W P H200 C. unfold decode.
    cbn [resp_ok resp_body negb]. rewrite W, P, H200, C.
    assert (T : truthy (member (Some j) (js "status")) = true).
    { apply member_truthy with (k := js "http_code").
      destruct (member (member (Some j) (js "status")) (js "http_code"));
        [discriminate|discriminate H200]. }
    rewrite T.
    assert (T' : truthy (Some j) = true).
    { apply member_truthy with (k := js "contents"). rewrite C. discriminate. }
    rewrite T'. cbn [andb]. now apply check_text_blank.
  - intros p code text Hb W. unfold decode.
    cbn [resp_ok resp_body negb]. rewrite W.
    now apply check_text_accepts.
  - intros p code raw j text Hb W P H200 C. unfold decode.
    cbn [resp_ok resp_body negb]. rewrite W, P, H200, C.
    assert (T : truthy (member (Some j) (js "status")) = true).
    { apply member_truthy with (k := js "http_code").
      rewrite H200. discriminate. }
    rewrite T.
    assert (T' : truthy (Some j) = true).
    { apply member_truthy with (k := js "contents"). rewrite C. discriminate. }
    rewrite T'. cbn [andb is_200]. now apply check_text_accepts.
  - intros p rest text u answer D.
    unfold fetchTextWithFallback_over, bind, Date_now_. fold u.
    cbn [fallback]. unfold bind. rewrite attempt_run. fold answer.
    rewrite D. reflexivity.
  - vm_compute. split; reflexivity.
Qed.

(** C6: when a wrapped provider answers with an envelope whose embedded
    status code is not 200, the attempt fails with the error naming that
    code (with what the conversion of the code to text throws, for a code
    that has no text), and the fetcher goes on, after its pause, with the
    providers that follow in the list, holding that error as the last
    one. *)
Theorem wrapped_not_200_fails (p : ProxyProvider)
    (rest : list ProxyProvider) (u : jsstring)
    (lastError : option js_error) (s : State)
    (response : Response) (raw : jsstring) (j : json) :
  isWrapped p = true ->
  fst (fetch (getUrl p u) (world s)) = Ok response ->
  resp_ok response = true ->
  resp_body response = Ok raw ->
  JSON_parse raw = Ok j ->
  is_200 (member (member (Some j) (js "status")) (js "http_code")) = false ->
  let e := match String_ (member (member (Some j) (js "status"))
                                   (js "http_code")) with
           | Ok code => Error (js "Wrapped proxy returned error code: "
                               ++ code)
           | Throw thrown => thrown
           end in
  let s1 := with_world
              (setTimeout 1000 (snd (fetch (getUrl p u) (world s)))) s in
  decode p (Ok response) = Throw e
  /\ fallback (p :: rest) u lastError s
     = (let '(r, s2, evs) := fallback rest u (Some e) s1 in
        (r, s2,
         [EvConsole Log (js "Attempting fetch via " ++ name p ++ js "...") None;
          EvFetch (getUrl p u) (Ok response);
          EvConsole Warn (js "Failed with " ++ name p ++ js ":") (Some e);
          EvDelay 1000] ++ evs)).
Proof.
  intros W F K Bd P H200 e s1.
  assert (D : decode p (Ok response) = Throw e).
  { unfold decode. rewrite K, W, Bd, P, H200, andb_false_r. subst e.
    cbn [negb]. now destruct (String_ _). }
  split; [exact D|].
  cbn [fallback]. unfold bind at 1. rewrite attempt_run, F, D.
  unfold bind, console, emit, delay, s1, with_world.
  cbn [world jobs isProcessing statusMessage].
  match goal with
  | |- context [fallback rest u (Some e) ?st] =>
      destruct (fallback rest u (Some e) st) as [[r s2] evs]
  end.
  reflexivity.
Qed.

End Fetcher.

(** A wrapped provider answers with an envelope whose code is 404; the
    second provider then serves the text. *)
Lemma wrapped_not_200_fails_witness :
  let p := mkProvider (js "allorigins-wrapped") (fun t => t) true in
  @decode Script.browser p (Script.answer (js "WRAPPED-404"))
  = Throw (Error (js "Wrapped proxy returned error code: 404"))
  /\ fst (fst (@fallback Script.browser
                 [p; mkProvider (js "codetabs") (fun t => t) false]
                 (js "https://example.org/x") None
                 (Script.start [Script.answer (js "WRAPPED-404");
                                Script.answer (js "STATS")] false [])))
     = Ok (js "STATS").
Proof.
  intros p.
  destruct (@wrapped_not_200_fails Script.browser p
              [mkProvider (js "codetabs") (fun t => t) false]
              (js "https://example.org/x") None
              (Script.start [Script.answer (js "WRAPPED-404");
                             Script.answer (js "STATS")] false [])
              (mkResponse true 200 (Ok (js "WRAPPED-404")))
              (js "WRAPPED-404") (Script.envelope 404 (js "gone"))
              eq_refl eq_refl eq_refl eq_refl eq_refl eq_refl) as [H1 H2].
  split; [exact H1|]. rewrite H2. reflexivity.
Defined.

(** ** The job queue *)

Section Orchestrator.

Context {B : Browser}.

(** *** Running a sequence of two actions *)

Lemma bind_run {A C : Type} (m : M A) (k : A -> M C) (s : State) :
  bind m k s
  = (value_of (k (value_of m s)) (state_after m s),
     state_after (k (value_of m s)) (state_after m s),
     events_of m s ++ events_of (k (value_of m s)) (state_after m s)).
Proof.
  unfold bind, value_of, state_after, events_of.
  destruct (m s) as [[a s1] t1]. simpl.
  destruct (k a s1) as [[c s2] t2]. reflexivity.
Qed.

Lemma run_eta {A : Type} (m : M A) (s : State) :
  m s = (value_of m s, state_after m s, events_of m s).
Proof.
  unfold value_of, state_after, events_of. now destruct (m s) as [[a s1] t].
Qed.

Lemma value_of_bind {A C : Type} (m : M A) (k : A -> M C) (s : State) :
  value_of (bind m k) s = value_of (k (value_of m s)) (state_after m s).
Proof. unfold value_of at 1. now rewrite bind_run. Qed.

Lemma state_after_bind {A C : Type} (m : M A) (k : A -> M C) (s : State) :
  state_after (bind m k) s = state_after (k (value_of m s)) (state_after m s).
Proof. unfold state_after at 1. now rewrite bind_run. Qed.

Lemma events_of_bind {A C : Type} (m : M A) (k : A -> M C) (s : State) :
  events_of (bind m k) s
  = events_of m s ++ events_of (k (value_of m s)) (state_after m s).
Proof. unfold events_of at 1. now rewrite bind_run. Qed.

Lemma snapshots_app (a b : list event) :
  snapshots (a ++ b) = snapshots a ++ snapshots b.
Proof. apply flat_map_app. Qed.

Lemma transport_no_snapshot (evs : list event) :
  Forall transport_event evs -> snapshots evs = [].
Proof.
  induction 1 as [|e evs He _ IH]; [reflexivity|].
  unfold snapshots in *. simpl. rewrite IH.
  destruct e; simpl in He; try reflexivity; contradiction.
Qed.

(** *** Quiet actions *)

Lemma quiet_bind {A C : Type} (m : M A) (k : A -> M C) :
  quiet m -> (forall a, quiet (k a)) -> quiet (bind m k).
Proof.
  intros Hm Hk s. rewrite state_after_bind, events_of_bind.
  destruct (Hm s) as [J1 F1].
  destruct (Hk (value_of m s) (state_after m s)) as [J2 F2].
  split; [congruence|now apply Forall_app].
Qed.

Lemma quiet_ret {A : Type} (a : A) : quiet (ret a).
Proof. intros s. split; [reflexivity|constructor]. Qed.

Lemma quiet_console (l : console_level) (t : jsstring) (e : option js_error) :
  quiet (console l t e).
Proof. intros s. split; [reflexivity|]. repeat constructor. Qed.

Lemma quiet_pause : quiet (delay 1000).
Proof. intros s. split; [reflexivity|]. repeat constructor. Qed.

Lemma quiet_do_fetch (u : jsstring) : quiet (do_fetch u).
Proof.
  intros s. unfold state_after, events_of, do_fetch.
  destruct (fetch u (world s)) as [r w]. split; [reflexivity|].
  repeat constructor.
Qed.

Lemma quiet_Date_now : quiet Date_now_.
Proof. intros s. split; [reflexivity|constructor]. Qed.

Lemma quiet_attempt (p : ProxyProvider) (u : jsstring) : quiet (attempt p u).
Proof.
  unfold attempt. apply quiet_bind; [apply quiet_console|intros _].
  apply quiet_bind; [apply quiet_do_fetch|intros r]. apply quiet_ret.
Qed.

Lemma quiet_fallback (providers : list ProxyProvider) (u : jsstring)
    (lastError : option js_error) :
  quiet (fallback providers u lastError).
Proof.
  revert lastError. induction providers as [|p ps IH]; intros lastError.
  - apply quiet_ret.
  - cbn [fallback]. apply quiet_bind; [apply quiet_attempt|intros [text|e]].
    + apply quiet_ret.
    + apply quiet_bind; [apply quiet_console|intros _].
      apply quiet_bind; [apply quiet_pause|intros _]. apply IH.
Qed.

Lemma quiet_fetchTextWithFallback (targetUrl : jsstring) :
  quiet (fetchTextWithFallback targetUrl).
Proof.
  unfold fetchTextWithFallback, fetchTextWithFallback_over.
  apply quiet_bind; [apply quiet_Date_now|intros now].
  apply quiet_fallback.
Qed.

Lemma quiet_fetchMatchData (matchId : jsstring) (type : data_type) :
  quiet (fetchMatchData matchId type).
Proof.
  unfold fetchMatchData.
  apply quiet_bind; [apply quiet_fetchTextWithFallback|intros [t|e]].
  - destruct (JSON_parse t) as [v|e]; [apply quiet_ret|].
    apply quiet_bind; [apply quiet_console|intros _].
    apply quiet_bind; [apply quiet_console|intros _]. apply quiet_ret.
  - apply quiet_bind; [apply quiet_console|intros _]. apply quiet_ret.
Qed.

(** *** Steady actions *)

Lemma last_cons_default {A : Type} (a : list A) (x d : A) :
  last (x :: a) d = last a x.
Proof.
  revert x d. induction a as [|y a IH]; intros x d; [reflexivity|].
  change (last (x :: y :: a) d) with (last (y :: a) d).
  now rewrite !IH.
Qed.

Lemma last_app_default {A : Type} (a b : list A) (d : A) :
  last (a ++ b) d = last b (last a d).
Proof.
  revert d. induction a as [|x a IH]; intros d; [reflexivity|].
  rewrite <- app_comm_cons, !last_cons_default. apply IH.
Qed.

Lemma chain_app (R : list MatchJob -> list MatchJob -> Prop)
    (first : list MatchJob) (a b : list (list MatchJob)) :
  chain R first a -> chain R (last a first) b -> chain R first (a ++ b).
Proof.
  revert first. induction a as [|x a IH]; intros first Ha Hb; [exact Hb|].
  destruct Ha as [H1 H2]. split; [exact H1|]. apply IH; [exact H2|].
  now rewrite last_cons_default in Hb.
Qed.

Lemma steady_bind (R : list MatchJob -> list MatchJob -> Prop)
    {A C : Type} (m : M A) (k : A -> M C) :
  steady R m -> (forall a, steady R (k a)) -> steady R (bind m k).
Proof.
  intros Hm Hk s. rewrite state_after_bind, events_of_bind, snapshots_app.
  destruct (Hm s) as [C1 L1].
  destruct (Hk (value_of m s) (state_after m s)) as [C2 L2].
  rewrite L1 in C2, L2. split.
  - now apply chain_app.
  - now rewrite last_app_default.
Qed.

Lemma steady_quiet (R : list MatchJob -> list MatchJob -> Prop)
    {A : Type} (m : M A) :
  quiet m -> steady R m.
Proof.
  intros H s. destruct (H s) as [J F].
  rewrite (transport_no_snapshot _ F). split; [exact I|exact J].
Qed.

Lemma steady_setJobs (R : list MatchJob -> list MatchJob -> Prop)
    (f : list MatchJob -> list MatchJob) :
  (forall l, R l (f l)) -> steady R (setJobs f).
Proof. intros H s. split; [split; [apply H|exact I]|reflexivity]. Qed.

Lemma steady_plain (R : list MatchJob -> list MatchJob -> Prop)
    {A : Type} (m : M A) :
  (forall s, jobs (state_after m s) = jobs s
             /\ snapshots (events_of m s) = []) ->
  steady R m.
Proof. intros H s. destruct (H s) as [J E]. rewrite E. split; [exact I|exact J]. Qed.

(** *** The flags only go up *)

Lemma flags_le_refl (j : MatchJob) : flags_le j j.
Proof. split; auto. Qed.

Lemma update_flags (target : jsstring) (f : MatchJob -> MatchJob)
    (l : list MatchJob) :
  (forall j, flags_le j (f j)) -> Forall2 flags_le l (update target f l).
Proof.
  intros H. induction l as [|j l IH]; [constructor|].
  simpl. constructor; [|exact IH].
  destruct (Js.eqb (id j) target); [apply H|apply flags_le_refl].
Qed.

Lemma steady_update (target : jsstring) (f : MatchJob -> MatchJob) :
  (forall j, flags_le j (f j)) ->
  steady (Forall2 flags_le) (setJobs (update target f)).
Proof. intros H. apply steady_setJobs. intros l. now apply update_flags. Qed.

Lemma flags_with_status (st : ScrapeStatus) (j : MatchJob) :
  flags_le j (with_status st j).
Proof. split; auto. Qed.

Lemma flags_with_stats (j : MatchJob) : flags_le j (with_stats_downloaded j).
Proof. split; auto. Qed.

Lemma flags_with_moves (j : MatchJob) : flags_le j (with_moves_completed j).
Proof. split; auto. Qed.

Lemma flags_with_error (msg : jsstring) (j : MatchJob) :
  flags_le j (with_error msg j).
Proof. split; auto. Qed.

Lemma steady_caught (job : MatchJob) (e : js_error) :
  steady (Forall2 flags_le) (caught job e).
Proof.
  unfold caught.
  apply steady_bind; [apply steady_quiet, quiet_console|intros _].
  apply steady_bind;
    [apply steady_update; intros j; apply flags_with_error|intros _].
  apply steady_quiet, quiet_ret.
Qed.

Lemma steady_delay (ms : Z) : steady (Forall2 flags_le) (delay ms).
Proof. apply steady_plain. intros s. split; reflexivity. Qed.

Lemma steady_setStatusMessage (t : jsstring) :
  steady (Forall2 flags_le) (setStatusMessage t).
Proof. apply steady_plain. intros s. split; reflexivity. Qed.

Lemma steady_processJob (job : MatchJob) :
  steady (Forall2 flags_le) (processJob job).
Proof.
  unfold processJob.
  apply steady_bind;
    [apply steady_update; intros j; apply flags_with_status|intros _].
  apply steady_bind;
    [apply steady_quiet, quiet_fetchMatchData|intros [statsData|e]];
    [|apply steady_caught].
  apply steady_bind;
    [apply steady_update; intros j; apply flags_with_stats|intros _].
  apply steady_bind; [apply steady_delay|intros _].
  apply steady_bind;
    [apply steady_quiet, quiet_fetchMatchData|intros [movesData|e]];
    [|apply steady_caught].
  apply steady_bind;
    [apply steady_update; intros j; apply flags_with_moves|intros _].
  apply steady_quiet, quiet_ret.
Qed.

Lemma steady_bulk_loop (queue : list MatchJob) (i total : nat)
    (allFiles : list file) :
  steady (Forall2 flags_le) (bulk_loop queue i total allFiles).
Proof.
  revert i allFiles. induction queue as [|job rest IH]; intros i allFiles.
  - apply steady_quiet, quiet_ret.
  - cbn [bulk_loop].
    apply steady_bind;
      [apply steady_update; intros j; apply flags_with_status|intros _].
    apply steady_bind; [apply steady_setStatusMessage|intros _].
    apply steady_bind; [apply steady_processJob|intros r].
    destruct (collected i r allFiles) as [files|e];
      [|apply steady_quiet, quiet_ret].
    apply steady_bind; [apply steady_delay|intros _].
    apply IH.
Qed.

Lemma Forall2_flags_refl (l : list MatchJob) : Forall2 flags_le l l.
Proof. induction l; constructor; auto using flags_le_refl. Qed.

Lemma Forall2_flags_trans (a b c : list MatchJob) :
  Forall2 flags_le a b -> Forall2 flags_le b c -> Forall2 flags_le a c.
Proof.
  intros H. revert c. induction H as [|x y a b [H1 H2] _ IH]; intros c Hc;
    inversion Hc as [|y' z b' c' [H3 H4] Hbc]; subst; constructor.
  - split; auto.
  - now apply IH.
Qed.

Lemma chain_last (first : list MatchJob) (later : list (list MatchJob)) :
  chain (Forall2 flags_le) first later ->
  Forall2 flags_le first (last later first).
Proof.
  revert first. induction later as [|x later IH]; intros first H.
  - apply Forall2_flags_refl.
  - destruct H as [H1 H2]. rewrite last_cons_default.
    apply Forall2_flags_trans with x; [exact H1|now apply IH].
Qed.

Lemma steady_ends (A : Type) (m : M A) (s : State) :
  steady (Forall2 flags_le) m ->
  Forall2 flags_le (jobs s) (jobs (state_after m s)).
Proof. intros H. destruct (H s) as [C L]. rewrite L. now apply chain_last. Qed.

(** C9: along every sequence of updates of a run, the two flags of every
    job only go up.  Each of the updates the code makes (queued,
    downloading, statistics retrieved, completed, failed) keeps a flag
    that is set; so do the successive job lists of [processJob] and of the
    whole queue, from the list the run starts with to the list it ends
    with. *)
Theorem flags_monotonic (job : MatchJob) (queue : list MatchJob)
    (i total : nat) (allFiles : list file) (s : State) :
  (forall st msg j,
      flags_le j (with_status st j) /\ flags_le j (with_stats_downloaded j)
      /\ flags_le j (with_moves_completed j) /\ flags_le j (with_error msg j))
  /\ chain (Forall2 flags_le) (jobs s) (snapshots (events_of (processJob job) s))
  /\ Forall2 flags_le (jobs s) (jobs (state_after (processJob job) s))
  /\ chain (Forall2 flags_le) (jobs s)
           (snapshots (events_of (bulk_loop queue i total allFiles) s))
  /\ Forall2 flags_le (jobs s)
               (jobs (state_after (bulk_loop queue i total allFiles) s)).
Proof.
  split.
  { intros st msg j. repeat split; auto. }
  split; [apply steady_processJob|].
  split; [apply steady_ends, steady_processJob|].
  split; [apply steady_bulk_loop|apply steady_ends, steady_bulk_loop].
Qed.

(** *** One job *)

Lemma processJob_run (job : MatchJob) (s : State) :
  let s1 := state_after
              (setJobs (update (id job) (with_status DOWNLOADING_JSON))) s in
  let r1 := value_of (fetchMatchData (id job) stats) s1 in
  let s2 := state_after (fetchMatchData (id job) stats) s1 in
  let F1 := events_of (fetchMatchData (id job) stats) s1 in
  let s3 := state_after (setJobs (update (id job) with_stats_downloaded)) s2 in
  let s4 := state_after (delay 500) s3 in
  let r2 := value_of (fetchMatchData (id job) moves) s4 in
  let s5 := state_after (fetchMatchData (id job) moves) s4 in
  let F2 := events_of (fetchMatchData (id job) moves) s4 in
  let s6 := state_after (setJobs (update (id job) with_moves_completed)) s5 in
  processJob job s
  = match r1 with
    | Throw e =>
        (None, set_failed job e s2,
         [EvJobs (jobs s1)] ++ F1
         ++ [EvConsole Err [] (Some e); EvJobs (jobs (set_failed job e s2))])
    | Ok statsData =>
        match r2 with
        | Throw e =>
            (None, set_failed job e s5,
             [EvJobs (jobs s1)] ++ F1 ++ [EvJobs (jobs s3); EvDelay 500] ++ F2
             ++ [EvConsole Err [] (Some e);
                 EvJobs (jobs (set_failed job e s5))])
        | Ok movesData =>
            (Some (statsData, movesData), s6,
             [EvJobs (jobs s1)] ++ F1 ++ [EvJobs (jobs s3); EvDelay 500] ++ F2
             ++ [EvJobs (jobs s6)])
        end
    end.
Proof.
  cbv zeta. rewrite (run_eta (processJob job) s). unfold processJob.
  rewrite !value_of_bind, !state_after_bind, !events_of_bind.
  destruct (value_of (fetchMatchData (id job) stats)
              (state_after
                 (setJobs (update (id job) (with_status DOWNLOADING_JSON))) s))
    as [statsData|e] eqn:R1.
  - rewrite !value_of_bind, !state_after_bind, !events_of_bind.
    change (value_of (delay 500) ?x) with tt.
    match goal with
    | |- context [value_of (fetchMatchData (id job) moves) ?st] =>
        destruct (value_of (fetchMatchData (id job) moves) st)
          as [movesData|e] eqn:R2
    end.
    + rewrite !value_of_bind, !state_after_bind, !events_of_bind.
      rewrite <- ?app_assoc. reflexivity.
    + rewrite <- ?app_assoc. reflexivity.
  - rewrite <- ?app_assoc. reflexivity.
Qed.

Lemma update_update (t : jsstring) (f g : MatchJob -> MatchJob)
    (l : list MatchJob) :
  (forall j, id (f j) = id j) ->
  update t g (update t f l) = update t (fun j => g (f j)) l.
Proof.
  intros H. unfold update. rewrite map_map. apply map_ext. intros j.
  destruct (Js.eqb (id j) t) eqn:E; [now rewrite H, E|now rewrite E].
Qed.

Lemma processJob_settles (job : MatchJob) (s : State) :
  exists g,
    jobs (state_after (processJob job) s) = update (id job) g (jobs s)
    /\ (forall j, id (g j) = id j)
    /\ (forall j, settled (value_of (processJob job) s) (g j)).
Proof.
  unfold value_of, state_after. rewrite processJob_run. cbv zeta.
  set (s1 := state_after
               (setJobs (update (id job) (with_status DOWNLOADING_JSON))) s).
  destruct (quiet_fetchMatchData (id job) stats s1) as [J1 _].
  destruct (value_of (fetchMatchData (id job) stats) s1) as [statsData|e].
  - set (s2 := state_after (fetchMatchData (id job) stats) s1) in *.
    set (s4 := state_after (delay 500)
                 (state_after
                    (setJobs (update (id job) with_stats_downloaded)) s2)).
    destruct (quiet_fetchMatchData (id job) moves s4) as [J2 _].
    destruct (value_of (fetchMatchData (id job) moves) s4) as [movesData|e];
      cbn [fst snd].
    + exists (fun j => with_moves_completed
                         (with_stats_downloaded
                            (with_status DOWNLOADING_JSON j))).
      split; [|split; [reflexivity|intros j; repeat split]].
      change (jobs (state_after
                      (setJobs (update (id job) with_moves_completed))
                      (state_after (fetchMatchData (id job) moves) s4)))
        with (update (id job) with_moves_completed
                (jobs (state_after (fetchMatchData (id job) moves) s4))).
      rewrite J2.
      change (jobs s4) with (update (id job) with_stats_downloaded (jobs s2)).
      rewrite J1.
      change (jobs s1)
        with (update (id job) (with_status DOWNLOADING_JSON) (jobs s)).
      now rewrite !update_update.
    + exists (fun j => with_error (message e)
                         (with_stats_downloaded
                            (with_status DOWNLOADING_JSON j))).
      split; [|split; [reflexivity|intros j; split;
                                  [reflexivity|now exists (message e)]]].
      change (jobs (set_failed job e
                      (state_after (fetchMatchData (id job) moves) s4)))
        with (update (id job) (with_error (message e))
                (jobs (state_after (fetchMatchData (id job) moves) s4))).
      rewrite J2.
      change (jobs s4) with (update (id job) with_stats_downloaded (jobs s2)).
      rewrite J1.
      change (jobs s1)
        with (update (id job) (with_status DOWNLOADING_JSON) (jobs s)).
      now rewrite !update_update.
  - cbn [fst snd].
    exists (fun j => with_error (message e) (with_status DOWNLOADING_JSON j)).
    split; [|split; [reflexivity|intros j; split;
                                [reflexivity|now exists (message e)]]].
    change (jobs (set_failed job e
                    (state_after (fetchMatchData (id job) stats) s1)))
      with (update (id job) (with_error (message e))
              (jobs (state_after (fetchMatchData (id job) stats) s1))).
    rewrite J1.
    change (jobs s1)
      with (update (id job) (with_status DOWNLOADING_JSON) (jobs s)).
    now rewrite update_update.
Qed.

(** *** One turn of the queue *)


Lemma turn_settles (job : MatchJob) (i total : nat) (s : State) :
  exists g,
    jobs (state_after (turn job i total) s) = update (id job) g (jobs s)
    /\ (forall j, id (g j) = id j)
    /\ (forall j, settled (value_of (turn job i total) s) (g j)).
Proof.
  unfold turn. rewrite !state_after_bind, !value_of_bind.
  set (s1 := state_after (setStatusMessage _) _).
  destruct (processJob_settles job s1) as (g & G1 & G2 & G3).
  exists (fun j => g (with_status QUEUED j)).
  split; [|split].
  - rewrite G1.
    change (jobs s1) with (update (id job) (with_status QUEUED) (jobs s)).
    now rewrite update_update.
  - intros j. now rewrite G2.
  - intros j. apply G3.
Qed.

Lemma collected_onto (i : nat) (r : option (json * json))
    (allFiles : list file) :
  collected i r allFiles
  = match collected i r [] with
    | Ok files => Ok (allFiles ++ files)
    | Throw e => Throw e
    end.
Proof.
  unfold collected. destruct r as [docs|].
  - now destruct (pushed i docs).
  - now rewrite app_nil_r.
Qed.

Lemma leaves_collected (i : nat) (r : option (json * json))
    (allFiles : list file) :
  leaves i r = negb (returned (collected i r allFiles)).
Proof.
  rewrite (collected_onto i r allFiles). unfold leaves.
  now destruct (collected i r []).
Qed.

(** A turn of the loop: either the loop is left where the turn ends, or
    it goes on from the pause. *)
Lemma bulk_loop_cons (job : MatchJob) (rest : list MatchJob) (i total : nat)
    (allFiles : list file) (s : State) :
  let r := value_of (turn job i total) s in
  let s1 := state_after (turn job i total) s in
  match collected i r allFiles with
  | Throw e =>
      value_of (bulk_loop (job :: rest) i total allFiles) s = Throw e
      /\ state_after (bulk_loop (job :: rest) i total allFiles) s = s1
      /\ events_of (bulk_loop (job :: rest) i total allFiles) s
         = events_of (turn job i total) s
  | Ok allFiles' =>
      value_of (bulk_loop (job :: rest) i total allFiles) s
      = value_of (bulk_loop rest (S i) total allFiles') (paused s1)
      /\ state_after (bulk_loop (job :: rest) i total allFiles) s
         = state_after (bulk_loop rest (S i) total allFiles') (paused s1)
      /\ events_of (bulk_loop (job :: rest) i total allFiles) s
         = events_of (turn job i total) s
           ++ EvDelay 1500
              :: events_of (bulk_loop rest (S i) total allFiles') (paused s1)
  end.
Proof.
  cbv zeta. cbn [bulk_loop]. unfold turn, paused.
  rewrite !value_of_bind, !state_after_bind, !events_of_bind.
  destruct (collected i _ allFiles) as [files|e].
  - rewrite !value_of_bind, !state_after_bind, !events_of_bind.
    rewrite <- ?app_assoc. repeat split.
  - change (events_of (ret ?r) ?x) with (@nil event).
    rewrite app_nil_r, <- ?app_assoc. repeat split.
Qed.

Lemma bulk_results_cons (job : MatchJob) (rest : list MatchJob)
    (i total : nat) (s : State) :
  let r := value_of (turn job i total) s in
  let s1 := state_after (turn job i total) s in
  if leaves i r then
    value_of (bulk_results (job :: rest) i total) s = [r]
    /\ state_after (bulk_results (job :: rest) i total) s = s1
    /\ events_of (bulk_results (job :: rest) i total) s
       = events_of (turn job i total) s
  else
    value_of (bulk_results (job :: rest) i total) s
    = r :: value_of (bulk_results rest (S i) total) (paused s1)
    /\ state_after (bulk_results (job :: rest) i total) s
       = state_after (bulk_results rest (S i) total) (paused s1)
    /\ events_of (bulk_results (job :: rest) i total) s
       = events_of (turn job i total) s
         ++ EvDelay 1500
            :: events_of (bulk_results rest (S i) total) (paused s1).
Proof.
  cbv zeta. cbn [bulk_results]. unfold turn, paused.
  rewrite !value_of_bind, !state_after_bind, !events_of_bind.
  destruct (leaves i _).
  - change (events_of (ret ?r) ?x) with (@nil event).
    rewrite app_nil_r, <- ?app_assoc. repeat split.
  - rewrite !value_of_bind, !state_after_bind, !events_of_bind.
    change (events_of (ret ?r) ?x) with (@nil event).
    rewrite app_nil_r, <- ?app_assoc. repeat split.
Qed.

(** *** The whole queue *)

(** Reading the results replays the run of the loop: same events, same
    final state. *)
Lemma bulk_results_same_run (queue : list MatchJob) (i total : nat)
    (allFiles : list file) (s : State) :
  state_after (bulk_results queue i total) s
  = state_after (bulk_loop queue i total allFiles) s
  /\ events_of (bulk_results queue i total) s
     = events_of (bulk_loop queue i total allFiles) s.
Proof.
  revert i allFiles s. induction queue as [|job rest IH]; intros i allFiles s.
  - split; reflexivity.
  - pose proof (bulk_loop_cons job rest i total allFiles s) as L.
    pose proof (bulk_results_cons job rest i total s) as R.
    cbv zeta in L, R.
    rewrite (leaves_collected i _ allFiles) in R.
    destruct (collected i _ allFiles) as [files|e]; cbn [returned negb] in R.
    + destruct L as (_ & S1 & E1). destruct R as (_ & S2 & E2).
      rewrite S1, E1, S2, E2.
      destruct (IH (S i) files (paused (state_after (turn job i total) s)))
        as [H1 H2].
      now rewrite H1, H2.
    + destruct L as (_ & S1 & E1). destruct R as (_ & S2 & E2).
      now rewrite S1, E1, S2, E2.
Qed.

(** The value of the loop, from the results of the turns: the files of
    the results when every name could be made, else what the making of a
    name threw.  Every job has had its turn when the loop returns. *)
Lemma bulk_files (queue : list MatchJob) (i total : nat)
    (allFiles : list file) (s : State) :
  let rs := value_of (bulk_results queue i total) s in
  value_of (bulk_loop queue i total allFiles) s
  = match files_of i rs with
    | Ok files => Ok (allFiles ++ files)
    | Throw e => Throw e
    end
  /\ (List.length rs <= List.length queue)%nat
  /\ (returned (files_of i rs) = true -> List.length rs = List.length queue).
Proof.
  cbv zeta.
  revert i allFiles s. induction queue as [|job rest IH]; intros i allFiles s.
  - split; [|split; [|reflexivity]].
    + unfold value_of. simpl. now rewrite app_nil_r.
    + apply Nat.le_refl.
  - pose proof (bulk_loop_cons job rest i total allFiles s) as L.
    pose proof (bulk_results_cons job rest i total s) as R.
    cbv zeta in L, R.
    rewrite (leaves_collected i _ allFiles) in R.
    rewrite (collected_onto i _ allFiles) in L, R.
    destruct (collected i (value_of (turn job i total) s) []) as [files|e] eqn:C;
      cbn [returned negb] in R.
    + destruct L as (V & _ & _). destruct R as (V' & _ & _).
      rewrite V, V'. cbn [files_of]. rewrite C.
      destruct (IH (S i) (allFiles ++ files)
                   (paused (state_after (turn job i total) s)))
        as (E & L1 & L2).
      rewrite E.
      destruct (files_of (S i) _) as [more|e].
      * rewrite <- app_assoc. split; [reflexivity|].
        split; [simpl; lia|]. intros _. simpl. now rewrite L2.
      * split; [reflexivity|]. split; [simpl; lia|]. discriminate.
    + destruct L as (V & _ & _). destruct R as (V' & _ & _).
      rewrite V, V'. cbn [files_of]. rewrite C.
      split; [reflexivity|]. split; [simpl; lia|]. discriminate.
Qed.





Lemma files_of_length (i : nat) (rs : list (option (json * json)))
    (files : list file) :
  files_of i rs = Ok files ->
  List.length files
  = (2 * List.length (filter (fun r => match r with
                                       | Some _ => true
                                       | None => false
                                       end) rs))%nat.
Proof.
  revert i files. induction rs as [|r rs IH]; intros i files.
  - intros [= <-]. reflexivity.
  - cbn [files_of]. unfold collected.
    destruct r as [docs|].
    + unfold pushed. destruct (generateFilenames _ _) as [names|e];
        [|discriminate].
      destruct (files_of (S i) rs) as [more|e] eqn:F; [|discriminate].
      intros [= <-]. cbn [filter app List.length].
      rewrite (IH (S i) more F). lia.
    + destruct (files_of (S i) rs) as [more|e] eqn:F; [|discriminate].
      intros [= <-]. cbn [filter]. simpl app. apply (IH (S i) more F).
Qed.



(** *** The order of the events *)




Lemma collected_throws (i : nat) (r : option (json * json))
    (allFiles : list file) (e : js_error) :
  collected i r allFiles = Throw e -> succeeded r = true.
Proof. destruct r; [reflexivity|discriminate]. Qed.


Lemma hex24_not_unknown (i : jsstring) :
  is_hex24 i = true -> Js.eqb i (js "unknown") = false.
Proof.
  intros H. destruct (Js.eqb i (js "unknown")) eqn:E; [|reflexivity].
  apply eqb_eq in E. subst. discriminate H.
Qed.



(** *** The end of a run *)

Lemma ends_idle_bind {A C : Type} (m : M A) (k : A -> M C) :
  (forall a, ends_idle (k a)) -> ends_idle (bind m k).
Proof. intros H s. rewrite state_after_bind. apply H. Qed.

Lemma ends_idle_set : ends_idle (setIsProcessing false).
Proof. intros s. reflexivity. Qed.

Lemma handleBulkStart_ends_idle (inputUrl customFilename : jsstring) :
  ends_idle (handleBulkStart inputUrl customFilename).
Proof.
  unfold handleBulkStart.
  do 3 (apply ends_idle_bind; intros _).
  apply ends_idle_bind. intros [links|e].
  - destruct (Nat.eqb (List.length links) 0).
    + do 2 (apply ends_idle_bind; intros _). apply ends_idle_set.
    + do 2 (apply ends_idle_bind; intros _).
      apply ends_idle_bind. intros looped.
      apply ends_idle_bind. intros _. apply ends_idle_set.
  - do 2 (apply ends_idle_bind; intros _). apply ends_idle_set.
Qed.

(** C2, as amended: when the compression step fails, [downloadAsZip]
    does not raise: it catches the failure, writes it to the console and
    returns [false]; nothing propagates to the run handler, which in
    every case leaves the run marked not in progress. *)
Theorem zip_failure_is_caught (files : list file)
    (zipFilename inputUrl customFilename : jsstring) (s s0 : State)
    (e : js_error) (w : World) :
  zip_generateAsync
    (List.map (fun f => (filename f, JSON_stringify (data f))) files)
    (world s) = (Throw e, w) ->
  downloadAsZip files zipFilename s
  = (false, with_world w s,
     [EvZip (List.map (fun f => (filename f, JSON_stringify (data f))) files)
            false;
      EvConsole Err (js "ZIP Generation failed") (Some e)])
  /\ isProcessing (state_after (handleBulkStart inputUrl customFilename) s0)
     = false.
Proof.
  intros H. split.
  - unfold downloadAsZip. now rewrite H.
  - apply handleBulkStart_ends_idle.
Qed.

End Orchestrator.

(** C4: two runs of the bulk handler on the scripted browser in which
    the code does not do what the claim says.  In the first the page lists
    one match twice, the second link with a closing slash: the two jobs
    bear one identifier, the first meets three refusals and the second is
    served; each update reaches both jobs, so the failed job is shown in
    error, then queued again, and ends completed, its error message still
    recorded, and the archive holds two documents for two jobs shown as
    completed.  In the second the page lists two matches and the round of
    the first is an object with a field named [toString]: the first job is
    completed, the making of its names throws, the second job is never
    started, no archive is asked for, and the run ends under the message
    of a listing failure. *)
Theorem bulk_run_defects :
  let page :=
    js "https://www.basquetcatala.cat/competicions/resultats/21639/0" in
  let served := [ Script.answer (js "WRAPPED-STATS");
                  Script.answer (js "WRAPPED-MOVES") ] in
  let twice := handleBulkStart (B := Script.browser) page (js "")
                 (Script.start ([Script.answer (js "WRAPPED-PAGE-TWICE")]
                                ++ Script.exhausted ++ served) false []) in
  let odd := handleBulkStart (B := Script.browser) page (js "")
               (Script.start ([ Script.answer (js "WRAPPED-PAGE-TWO");
                                Script.answer (js "WRAPPED-ODD-STATS");
                                Script.answer (js "WRAPPED-MOVES") ]
                              ++ served) false []) in
  (List.map url (jobs (snd (fst twice)))
   = [ js "https://www.basquetcatala.cat/estadistiques/2025/696b6acdd2a7ac0001714803";
       js "https://www.basquetcatala.cat/estadistiques/2025/696b6acdd2a7ac0001714803/" ]
   /\ List.map id (jobs (snd (fst twice))) = [Script.id1; Script.id1]
   /\ List.map (List.map status) (snapshots (snd twice))
      = [ []; [IDLE; IDLE]; [QUEUED; QUEUED];
          [DOWNLOADING_JSON; DOWNLOADING_JSON]; [ERROR; ERROR];
          [QUEUED; QUEUED]; [DOWNLOADING_JSON; DOWNLOADING_JSON];
          [DOWNLOADING_JSON; DOWNLOADING_JSON]; [COMPLETED; COMPLETED] ]
   /\ List.map error (jobs (snd (fst twice)))
      = [Some (js "Failed to fetch"); Some (js "Failed to fetch")]
   /\ List.map (fun z => (List.map fst (fst z), snd z)) (zips (snd twice))
      = [([js "J5_P2_88_76.json"; js "Moves/J5_P2_Moves.json"], true)]
   /\ statusMessage (snd (fst twice))
      = js "All jobs finished. ZIP downloaded.")
  /\ (List.map id (jobs (snd (fst odd))) = [Script.id1; Script.id2]
      /\ List.map (List.map status) (snapshots (snd odd))
         = [ []; [IDLE; IDLE]; [QUEUED; IDLE]; [DOWNLOADING_JSON; IDLE];
             [DOWNLOADING_JSON; IDLE]; [COMPLETED; IDLE] ]
      /\ zips (snd odd) = []
      /\ delays (snd odd) = [500%Z]
      /\ List.length (requests (snd odd)) = 3%nat
      /\ statusMessage (snd (fst odd))
         = js "Error fetching the list page. Check CORS or URL."
      /\ isProcessing (snd (fst odd)) = false).
Proof. vm_compute. repeat split. Qed.

(** Archive generation fails on the scripted browser: the call returns
    [false]. *)
Lemma zip_failure_is_caught_witness :
  fst (fst (downloadAsZip (B := Script.browser) []
              (js "bulk.zip") (Script.start [] true [])))
  = false.
Proof.
  destruct (zip_failure_is_caught (B := Script.browser) [] (js "bulk.zip")
              (js "https://www.basquetcatala.cat/competicions/resultats/21639/0")
              (js "") (Script.start [] true []) (Script.start [] true [])
              (Error (js "out of memory")) (Script.mkTape [] true) eq_refl)
    as [H _].
  rewrite H. reflexivity.
Defined.

(** C2 as stated fails: the page lists one match, both documents arrive,
    the compression step fails; the failure goes to the console, and the
    final status message announces a downloaded archive. *)
Lemma zip_failure_message_counterexample :
  let run := handleBulkStart (B := Script.browser)
               (js "https://www.basquetcatala.cat/competicions/resultats/21639/0")
               (js "")
               (Script.start [ Script.answer (js "WRAPPED-PAGE");
                               Script.answer (js "WRAPPED-STATS");
                               Script.answer (js "WRAPPED-MOVES") ] true []) in
  firstn 3 (rev (snd run))
  = [ EvIsProcessing false;
      EvStatusMessage (js "All jobs finished. ZIP downloaded.");
      EvConsole Err (js "ZIP Generation failed")
                (Some (Error (js "out of memory"))) ]
  /\ statusMessage (snd (fst run)) = js "All jobs finished. ZIP downloaded."
  /\ isProcessing (snd (fst run)) = false.
Proof. vm_compute. repeat split. Qed.

(* ================================================================== *)
(** * Further properties *)

(** ** Identifiers *)

Lemma last_opt_In {A : Type} (l : list A) (x : A) :
  last_opt l = Some x -> In x l.
Proof.
  induction l as [|y l IH]; [discriminate|].
  destruct l as [|z l]; [intros [= ->]; now left|].
  intros H. right. now apply IH.
Qed.

Lemma last_opt_app {A : Type} (a b : list A) (x : A) :
  last_opt b = Some x -> last_opt (a ++ b) = Some x.
Proof.
  intros H. induction a as [|y a IH]; [exact H|].
  simpl. destruct (a ++ b) eqn:E; [|exact IH].
  destruct a; [|discriminate]. simpl in E. subst. discriminate.
Qed.

Lemma split_chunks_short (sep : N) (s : jsstring) :
  Forall (fun c => (List.length c <= List.length s)%nat) (Js.split sep s).
Proof.
  induction s as [|x r IH]; simpl; [repeat constructor|].
  destruct (Js.unit_eqb x sep).
  - constructor; [simpl; lia|].
    eapply Forall_impl; [|exact IH]. intros c Hc. simpl in *. lia.
  - destruct (Js.split sep r) as [|h t] eqn:E;
      [now apply split_not_nil in E|].
    inversion IH as [|? ? Hh Ht]; subst. constructor; [simpl; lia|].
    eapply Forall_impl; [|exact Ht]. intros c Hc. simpl in *. lia.
Qed.

(** X1: whatever [extractMatchId] returns is made of 24 hexadecimal digits,
    and is itself a string the function accepts and returns unchanged. *)
Theorem extractMatchId_fixed_point (url i : jsstring) :
  extractMatchId url = Some i ->
  List.length i = 24%nat
  /\ (forall c, In c i -> is_hex c = true)
  /\ extractMatchId i = Some i.
Proof.
  intros H. pose proof (extractMatchId_hex24 url i H) as Hh.
  destruct (hex24_chunk i Hh) as [Hne Hs].
  pose proof Hh as Hh'. unfold is_hex24 in Hh'.
  apply andb_true_iff in Hh' as [L F]. apply Nat.eqb_eq in L.
  split; [exact L|]. split; [now apply forallb_forall|].
  pose proof (extractMatchId_chunk [] i 0 (or_introl eq_refl) Hne Hs) as E.
  simpl in E. rewrite app_nil_r, Hh in E. exact E.
Qed.

Lemma extractMatchId_fixed_point_witness :
  extractMatchId (js "696b6acdd2a7ac0001714803")
  = Some (js "696b6acdd2a7ac0001714803").
Proof.
  apply (extractMatchId_fixed_point
           (js "https://www.basquetcatala.cat/estadistiques/2025/696b6acdd2a7ac0001714803")
           (js "696b6acdd2a7ac0001714803")).
  reflexivity.
Defined.

(** X2: trailing slashes never change the answer, and an identifier found
    in a string is still found when the string is put behind any text and a
    slash. *)
Theorem extractMatchId_context (p url i : jsstring) (n : nat) :
  extractMatchId (url ++ repeat slash n) = extractMatchId url
  /\ (extractMatchId url = Some i ->
      extractMatchId (p ++ slash :: url) = Some i).
Proof.
  split.
  - destruct n as [|n]; [now rewrite app_nil_r|].
    unfold extractMatchId. simpl repeat.
    now rewrite split_app_sep, filter_app, filter_nonempty_slashes, app_nil_r.
  - unfold extractMatchId. rewrite split_app_sep, filter_app.
    destruct (last_opt (filter nonempty (Js.split slash url))) as [c|] eqn:L;
      [|discriminate].
    now rewrite (last_opt_app _ _ _ L).
Qed.

(** X3: a string shorter than 24 code units, the empty string among them,
    and a string made of slashes only yield no identifier. *)
Theorem extractMatchId_too_short (url : jsstring) (n : nat) :
  ((List.length url < 24)%nat -> extractMatchId url = None)
  /\ extractMatchId (repeat slash n) = None.
Proof.
  split.
  - intros Hl. destruct (extractMatchId url) as [i|] eqn:E; [|reflexivity].
    exfalso. pose proof (extractMatchId_hex24 url i E) as Hh.
    unfold is_hex24 in Hh. apply andb_true_iff in Hh as [L _].
    apply Nat.eqb_eq in L. unfold extractMatchId in E.
    destruct (last_opt (filter nonempty (Js.split slash url))) as [c|] eqn:Lc;
      [|discriminate].
    destruct (nonempty c && is_hex24 c); [|discriminate].
    injection E as <-. apply last_opt_In in Lc.
    apply filter_In in Lc as [Hc _].
    pose proof (split_chunks_short slash url) as F.
    rewrite Forall_forall in F. specialize (F c Hc). lia.
  - unfold extractMatchId. now rewrite filter_nonempty_slashes.
Qed.

(** ** The jobs of a bulk run *)

Section Queue.

Context {B : Browser}.

(** X4: every job [handleBulkStart] creates is idle, with both flags down
    and no error; it bears the 24-digit identifier of a link of the list
    and the title made from it; a link without identifier gives no job,
    and a list whose links all bear one gives as many jobs as links. *)
Theorem initialJobs_fresh (links : list jsstring) :
  Forall (fun j =>
            status j = IDLE /\ statsFileDownloaded j = false
            /\ movesFileDownloaded j = false /\ error j = None
            /\ is_hex24 (id j) = true
            /\ matchTitle j = Some (js "Match " ++ id j)
            /\ In (url j) links)
         (initialJobs links)
  /\ (List.length (initialJobs links) <= List.length links)%nat
  /\ (forallb has_id links = true ->
      List.length (initialJobs links) = List.length links).
Proof.
  induction links as [|link links (IH1 & IH2 & IH3)];
    [repeat split; constructor|].
  change (initialJobs (link :: links))
    with (if negb (Js.eqb (id (new_job link)) (js "unknown"))
          then new_job link :: initialJobs links
          else initialJobs links).
  assert (Hid : id (new_job link)
                = match extractMatchId link with
                  | Some i => i
                  | None => js "unknown"
                  end) by reflexivity.
  assert (Ht : matchTitle (new_job link)
               = Some (js "Match " ++ match extractMatchId link with
                                      | Some i => i
                                      | None => js "null"
                                      end)) by reflexivity.
  assert (Later : Forall (fun j =>
            status j = IDLE /\ statsFileDownloaded j = false
            /\ movesFileDownloaded j = false /\ error j = None
            /\ is_hex24 (id j) = true
            /\ matchTitle j = Some (js "Match " ++ id j)
            /\ In (url j) (link :: links)) (initialJobs links)).
  { eapply Forall_impl; [|exact IH1].
    intros j (H1 & H2 & H3 & H4 & H5 & H6 & H7). repeat split; auto.
    now right. }
  cbn [forallb]. unfold has_id at 1.
  destruct (extractMatchId link) as [i|] eqn:E; rewrite Hid.
  - pose proof (extractMatchId_hex24 link i E) as H.
    rewrite (hex24_not_unknown i H). cbn [negb andb]. split; [|split].
    + constructor; [|exact Later].
      rewrite Hid, Ht. repeat split; auto. now left.
    + simpl. lia.
    + intros F. simpl. now rewrite IH3.
  - rewrite eqb_refl. cbn [negb andb]. split; [exact Later|].
    split; [simpl; lia|discriminate].
Qed.

End Queue.

(** ** File names *)

Section NamesMore.

Context {B : Browser}.

(** X5: the statistics name in full.  Each score is read from the first
    of its three places that holds a value of any kind, 0 and [null]
    included: the team entry, then the top-level field, then the field
    under [match]; with no value anywhere it is the placeholder.  The
    round is converted first, then the home score, then the away score;
    the call throws what the first failing conversion throws, and returns
    the names when there is none. *)
Theorem generateFilenames_scores (stats : value) (index : Z) :
  generateFilenames stats index
  = match round_when_truthy stats with
    | Throw e => Throw e
    | Ok x =>
        match score_when_defined stats 0 (js "resultatLocal") with
        | Throw e => Throw e
        | Ok pl =>
            match score_when_defined stats 1 (js "resultatVisitant") with
            | Throw e => Throw e
            | Ok pv =>
                Ok (mkNames
                      (js "J" ++ x ++ js "_P" ++ Js.of_Z index
                       ++ js "_" ++ pl ++ js "_" ++ pv ++ js ".json")
                      (js "J" ++ x ++ js "_P" ++ Js.of_Z index
                       ++ js "_Moves.json"))
            end
        end
    end.
Proof. apply generateFilenames_eq. Qed.

(** X6: a payload that is no object (absent, [null], a number, a string,
    an array) gives the placeholder names of its index. *)
Theorem generateFilenames_not_object (stats : value) (index : Z) :
  (forall fields, stats <> Some (JObj fields)) ->
  generateFilenames stats index
  = Ok (mkNames (js "J0_P" ++ Js.of_Z index ++ js "_0_0.json")
                (js "J0_P" ++ Js.of_Z index ++ js "_Moves.json")).
Proof.
  intros H.
  assert (M : forall k, member stats k = None).
  { intros k. destruct stats as [[| | | | |fields| |]|]; try reflexivity.
    now destruct (H fields). }
  rewrite generateFilenames_eq.
  unfold round_when_truthy, score_when_defined. rewrite !M. reflexivity.
Qed.

End NamesMore.

Lemma generateFilenames_not_object_witness :
  generateFilenames (B := Script.browser) (Some (JArr [JNum 5])) 2
  = Ok (mkNames (js "J0_P2_0_0.json") (js "J0_P2_Moves.json")).
Proof.
  apply (generateFilenames_not_object (B := Script.browser)
           (Some (JArr [JNum 5])) 2).
  intros fields. discriminate.
Defined.

(** ** The job card *)

(** X7: a card shows one indicator at most, and none only for an idle job;
    two statuses share a colour exactly when they share their indicator,
    downloading and fetching being the one pair that does; the spinner goes
    with the blue colour. *)
Theorem card_colour_and_indicator (a b : ScrapeStatus) :
  (List.length (indicators a) <= 1)%nat
  /\ (indicators a = [] <-> a = IDLE)
  /\ (getStatusColor a = getStatusColor b <-> indicators a = indicators b)
  /\ (indicators a = [Spinner]
      <-> getStatusColor a
          = js "bg-blue-500/10 border-blue-500/50 text-blue-500").
Proof.
  destruct a, b; vm_compute; repeat split; intros; try discriminate;
    try reflexivity; try lia.
Qed.

(** X8: the title a card shows is never empty: a job without title, or
    with the empty title, is shown under the default one. *)
Theorem shown_title_nonempty (job : MatchJob) :
  nonempty (shown_title job) = true
  /\ (matchTitle job = None \/ matchTitle job = Some [] ->
      shown_title job = js "Basketball Match Stats").
Proof.
  unfold shown_title. split.
  - destruct (matchTitle job) as [t|]; [|reflexivity].
    destruct (nonempty t) eqn:E; [exact E|reflexivity].
  - intros [-> | ->]; reflexivity.
Qed.

(** ** The archive name *)

Lemma startsWith_app (p x : jsstring) : Js.startsWith p (p ++ x) = true.
Proof.
  induction p as [|c p IH]; [reflexivity|].
  simpl. unfold Js.unit_eqb. now rewrite N.eqb_refl.
Qed.

Lemma trim_blank_nil (s : jsstring) : Js.blank s = true -> Js.trim s = [].
Proof.
  intros H. pose proof (trim_length_blank s) as E. rewrite H in E.
  apply Nat.eqb_eq in E. now destruct (Js.trim s).
Qed.

Lemma trim_not_blank (s : jsstring) :
  Js.blank s = false -> nonempty (Js.trim s) = true.
Proof.
  intros H. pose proof (trim_length_blank s) as E. rewrite H in E.
  unfold nonempty. now destruct (Js.trim s).
Qed.

Lemma trimStart_suffix (s : jsstring) :
  exists pre, s = pre ++ Js.trimStart s.
Proof.
  induction s as [|c r [pre IH]]; [now exists []|].
  simpl. destruct (Js.is_whitespace c).
  - exists (c :: pre). simpl. now rewrite <- IH.
  - now exists [].
Qed.

Lemma trimStart_head (s : jsstring) :
  match Js.trimStart s with
  | [] => True
  | c :: _ => Js.is_whitespace c = false
  end.
Proof.
  induction s as [|c r IH]; [exact I|].
  simpl. destruct (Js.is_whitespace c) eqn:E; [exact IH|exact E].
Qed.

Lemma trimStart_fixed (s : jsstring) :
  match s with [] => True | c :: _ => Js.is_whitespace c = false end ->
  Js.trimStart s = s.
Proof. destruct s as [|c r]; [reflexivity|]. simpl. now intros ->. Qed.

(** A trimmed string begins and ends with something else than white
    space, and trimming leaves such a string as it is. *)
Lemma trim_fixed (t : jsstring) :
  match t with [] => True | c :: _ => Js.is_whitespace c = false end ->
  match rev t with [] => True | c :: _ => Js.is_whitespace c = false end ->
  Js.trim t = t.
Proof.
  intros H1 H2. unfold Js.trim, Js.trimEnd.
  rewrite (trimStart_fixed t H1), (trimStart_fixed (rev t) H2).
  apply rev_involutive.
Qed.

Lemma trim_ends (s : jsstring) :
  match Js.trim s with [] => True | c :: _ => Js.is_whitespace c = false end
  /\ match rev (Js.trim s) with
     | [] => True
     | c :: _ => Js.is_whitespace c = false
     end.
Proof.
  unfold Js.trim, Js.trimEnd. set (u := Js.trimStart s).
  pose proof (trimStart_head s) as Hu. fold u in Hu.
  pose proof (trimStart_head (rev u)) as Hw.
  destruct (trimStart_suffix (rev u)) as [pre E].
  set (w := Js.trimStart (rev u)) in *.
  split; [|now rewrite rev_involutive].
  assert (U : u = rev w ++ rev pre).
  { rewrite <- rev_involutive at 1. rewrite E. apply rev_app_distr. }
  destruct (rev w) as [|c r]; [exact I|].
  rewrite U in Hu. exact Hu.
Qed.

Section ArchiveName.

Context {B : Browser}.

(** X9: a custom name that is blank gives the default name; any other
    gives a name that is not empty and is the trimmed custom name, followed
    by [.zip] or by nothing. *)
Theorem getZipName_shape (customFilename defaultName : jsstring) :
  (Js.blank customFilename = true ->
   getZipName customFilename defaultName = defaultName)
  /\ (Js.blank customFilename = false ->
      nonempty (getZipName customFilename defaultName) = true
      /\ Js.startsWith (Js.trim customFilename)
                       (getZipName customFilename defaultName) = true
      /\ (List.length (getZipName customFilename defaultName)
          <= List.length (Js.trim customFilename) + 4)%nat).
Proof.
  unfold getZipName. split.
  - intros H. now rewrite (trim_blank_nil _ H).
  - intros H. pose proof (trim_not_blank _ H) as Hn. rewrite Hn. cbn [negb].
    destruct (Js.endsWith (js ".zip") (toLowerCase (Js.trim customFilename)));
      cbn [negb].
    + split; [exact Hn|]. split; [|lia].
      rewrite <- (app_nil_r (Js.trim customFilename)) at 2.
      apply startsWith_app.
    + split; [|split; [apply startsWith_app|]].
      * unfold nonempty in *. rewrite length_app.
        destruct (List.length (Js.trim customFilename)); [discriminate|].
        reflexivity.
      * rewrite length_app. simpl. lia.
Qed.

(** X10: the name is given its suffix once.  Provided lower-casing leaves
    a final [.zip] in place, a name that went through [getZipName] comes
    out of it unchanged, whatever the default. *)
Theorem getZipName_idempotent (customFilename defaultName other : jsstring) :
  (forall a, Js.endsWith (js ".zip") (toLowerCase (a ++ js ".zip")) = true) ->
  Js.blank customFilename = false ->
  getZipName (getZipName customFilename defaultName) other
  = getZipName customFilename defaultName.
Proof.
  intros Hlow Hb. pose proof (trim_not_blank _ Hb) as Hn.
  destruct (trim_ends customFilename) as [T1 T2].
  unfold getZipName at 2 3. rewrite Hn. cbn [negb].
  set (name := Js.trim customFilename) in *.
  destruct (Js.endsWith (js ".zip") (toLowerCase name)) eqn:E; cbn [negb].
  - unfold getZipName. rewrite (trim_fixed name T1 T2), Hn, E. reflexivity.
  - assert (F : Js.trim (name ++ js ".zip") = name ++ js ".zip").
    { apply trim_fixed.
      - destruct name; [discriminate Hn|exact T1].
      - rewrite rev_app_distr. reflexivity. }
    unfold getZipName. rewrite F, Hlow.
    unfold nonempty. rewrite length_app.
    unfold nonempty in Hn. destruct (List.length name); [discriminate|].
    reflexivity.
Qed.

End ArchiveName.

Lemma lower_keeps_zip (a : jsstring) :
  Js.endsWith (js ".zip") (Script.lower (a ++ js ".zip")) = true.
Proof.
  unfold Js.endsWith, Script.lower. rewrite map_app, rev_app_distr.
  apply startsWith_app.
Qed.

(** The custom base [report] and the name it was given. *)
Lemma getZipName_idempotent_witness :
  getZipName (B := Script.browser) (js "report.zip") (js "other.zip")
  = js "report.zip".
Proof.
  pose proof (getZipName_idempotent (B := Script.browser)
                (js " report ") (js "default.zip") (js "other.zip")
                lower_keeps_zip eq_refl) as H.
  exact H.
Defined.

(** ** More on the resource fetcher *)

Lemma includes_cons (p s : jsstring) (x : N) :
  Js.includes p s = true -> Js.includes p (x :: s) = true.
Proof.
  intros H. change (Js.includes p (x :: s))
    with (Js.startsWith p (x :: s) || Js.includes p s).
  rewrite H. apply orb_true_r.
Qed.

Lemma includes_app_l (p a s : jsstring) :
  Js.includes p s = true -> Js.includes p (a ++ s) = true.
Proof.
  intros H. induction a as [|x a IH]; [exact H|].
  simpl app. now apply includes_cons.
Qed.

Lemma includes_prefix (p x : jsstring) : Js.includes p (p ++ x) = true.
Proof.
  destruct (p ++ x) as [|c r] eqn:E.
  - destruct p; [reflexivity|discriminate].
  - change (Js.includes p (c :: r))
      with (Js.startsWith p (c :: r) || Js.includes p r).
    rewrite <- E, startsWith_app. reflexivity.
Qed.

Lemma startsWith_trans_app (p s x : jsstring) :
  Js.startsWith p s = true -> Js.startsWith p (s ++ x) = true.
Proof.
  revert s. induction p as [|c p IH]; intros [|d s] H; try reflexivity;
    try discriminate.
  simpl in *. apply andb_true_iff in H as [H1 H2]. rewrite H1. now apply IH.
Qed.

(** X11: every link the extraction returns begins with [http] and holds
    the statistics path fragment. *)
Theorem extractMatchLinks_absolute (hrefs : list (option jsstring))
    (link : jsstring) :
  In link (extractMatchLinks hrefs) ->
  Js.startsWith (js "http") link = true
  /\ Js.includes (js "/estadistiques/") link = true.
Proof.
  unfold extractMatchLinks, statsLinks. rewrite Array_from_Set_In, in_map_iff.
  intros [(h & <- & Hh) _]. apply filter_hrefs_In in Hh as [_ Hi].
  unfold normalize. destruct (Js.startsWith (js "http") h) eqn:E.
  - now split.
  - split.
    + apply (startsWith_trans_app (js "http") BASE_URL). reflexivity.
    + rewrite app_assoc. now apply includes_app_l.
Qed.

Lemma extractMatchLinks_absolute_witness :
  Js.startsWith (js "http")
    (js "https://www.basquetcatala.cat/estadistiques/2025/1") = true
  /\ Js.includes (js "/estadistiques/")
       (js "https://www.basquetcatala.cat/estadistiques/2025/1") = true.
Proof.
  apply (extractMatchLinks_absolute [None; Some (js "estadistiques/2025/1");
                                     Some (js "/estadistiques/2025/1")]).
  vm_compute. now left.
Defined.

Section FetcherMore.

Context {B : Browser}.

Lemma is_200_inv (v : value) : is_200 v = true -> v = Some (JNum 200).
Proof.
  destruct v as [[| |z| | | | |]|]; try discriminate.
  simpl. intros H. apply Z.eqb_eq in H. now subst.
Qed.

(** X12: an answer is accepted only under a success status.  The body
    returned is then the text of the response itself, nothing trimmed off,
    for a raw provider; for a wrapped one it is the string under [contents]
    of an envelope whose embedded code is the number 200. *)
Theorem decode_accepts (p : ProxyProvider) (o : result Response)
    (text : jsstring) :
  decode p o = Ok text ->
  exists response,
    o = Ok response /\ resp_ok response = true
    /\ (isWrapped p = false -> resp_body response = Ok text)
    /\ (isWrapped p = true ->
        exists raw j,
          resp_body response = Ok raw /\ JSON_parse raw = Ok j
          /\ member (member (Some j) (js "status")) (js "http_code")
             = Some (JNum 200)
          /\ member (Some j) (js "contents") = Some (JStr text)).
Proof.
  unfold decode. destruct o as [response|e]; [|discriminate].
  destruct (resp_ok response) eqn:K; [|discriminate]. cbn [negb].
  intros H. exists response. split; [reflexivity|]. split; [exact K|].
  destruct (isWrapped p).
  - split; [discriminate|]. intros _.
    destruct (resp_body response) as [raw|e]; [|discriminate].
    destruct (JSON_parse raw) as [j|e] eqn:P; [|discriminate].
    exists raw, j. split; [reflexivity|]. split; [exact P|].
    destruct (truthy (Some j) && truthy (member (Some j) (js "status"))
              && is_200 (member (member (Some j) (js "status"))
                                (js "http_code"))) eqn:C;
      [|now destruct (String_ _)].
    apply andb_true_iff in C as [_ C]. split; [now apply is_200_inv|].
    now apply check_text_ok in H.
  - split; [|discriminate]. intros _.
    destruct (resp_body response) as [t|e]; [|discriminate].
    apply check_text_ok in H as [[= ->] _]. reflexivity.
Qed.

Lemma delays_app (a b : list event) : delays (a ++ b) = delays a ++ delays b.
Proof. apply flat_map_app. Qed.

Lemma attempt_value (p : ProxyProvider) (u : jsstring) (s : State) :
  value_of (attempt p u) s = decode p (fst (fetch (getUrl p u) (world s))).
Proof. unfold value_of. now rewrite attempt_run. Qed.

Lemma attempt_events (p : ProxyProvider) (u : jsstring) (s : State) :
  events_of (attempt p u) s
  = [EvConsole Log (js "Attempting fetch via " ++ name p ++ js "...") None;
     EvFetch (getUrl p u) (fst (fetch (getUrl p u) (world s)))].
Proof. unfold events_of. now rewrite attempt_run. Qed.

Lemma fallback_pauses (providers : list ProxyProvider) (u : jsstring)
    (lastError : option js_error) (s : State) :
  exists k,
    delays (events_of (fallback providers u lastError) s) = repeat 1000%Z k
    /\ List.length (requests (events_of (fallback providers u lastError) s))
       = (k + match value_of (fallback providers u lastError) s with
              | Ok _ => 1
              | Throw _ => 0
              end)%nat
    /\ match value_of (fallback providers u lastError) s with
       | Ok _ => (k < List.length providers)%nat
       | Throw _ => k = List.length providers
       end.
Proof.
  revert lastError s. induction providers as [|p ps IH]; intros lastError s.
  - exists 0%nat. repeat split.
  - cbn [fallback]. rewrite events_of_bind, value_of_bind.
    rewrite attempt_value, attempt_events.
    destruct (decode p (fst (fetch (getUrl p u) (world s)))) as [text|e].
    + exists 0%nat. split; [reflexivity|]. split; [reflexivity|].
      change (value_of (ret (Ok text)) ?x) with (@Ok jsstring text).
      simpl. lia.
    + repeat (rewrite events_of_bind || rewrite value_of_bind
              || rewrite state_after_bind).
      match goal with
      | |- context [events_of (fallback ps u (Some e)) ?st] =>
          destruct (IH (Some e) st) as (k & D & R & V)
      end.
      exists (S k).
      rewrite !delays_app, !requests_app, D, !length_app, R.
      split; [reflexivity|]. split; [simpl; lia|].
      match goal with
      | |- match value_of (fallback ps u (Some e)) ?st with _ => _ end =>
          destruct (value_of (fallback ps u (Some e)) st)
      end; simpl; lia.
Qed.

(** X13: each failed attempt, the last of the list included, is followed
    by one pause of 1000 ms, and a successful attempt by none: a fetch
    that succeeds at its n-th request has paused n-1 times, one that fails
    has paused once per provider. *)
Theorem fetchText_pacing (providers : list ProxyProvider)
    (targetUrl : jsstring) (s : State) :
  exists k,
    delays (events_of (fetchTextWithFallback_over providers targetUrl) s)
    = repeat 1000%Z k
    /\ List.length
         (requests (events_of (fetchTextWithFallback_over providers targetUrl) s))
       = (k + match value_of (fetchTextWithFallback_over providers targetUrl) s
              with
              | Ok _ => 1
              | Throw _ => 0
              end)%nat
    /\ match value_of (fetchTextWithFallback_over providers targetUrl) s with
       | Ok _ => (k < List.length providers)%nat
       | Throw _ => k = List.length providers
       end.
Proof.
  unfold fetchTextWithFallback_over.
  rewrite events_of_bind, value_of_bind.
  change (events_of Date_now_ s) with (@nil event).
  change (state_after Date_now_ s) with s.
  change (value_of Date_now_ s) with (Date_now (world s)).
  apply fallback_pauses.
Qed.

End FetcherMore.

Section Transport.

Context {B : Browser}.

Lemma map_fst_combine {X Y : Type} (a : list X) (b : list Y) :
  List.length b = List.length a -> List.map fst (combine a b) = a.
Proof.
  revert b. induction a as [|x a IH]; intros [|y b] H; try discriminate;
    [reflexivity|].
  simpl. f_equal. apply IH. now injection H.
Qed.

Lemma fallback_requests (providers : list ProxyProvider) (u : jsstring)
    (lastError : option js_error) (s : State) :
  exists n,
    (n <= List.length providers)%nat
    /\ (providers <> [] -> (1 <= n)%nat)
    /\ List.map fst (requests (events_of (fallback providers u lastError) s))
       = firstn n (List.map (fun p => getUrl p u) providers).
Proof.
  pose proof (fallback_pass providers u lastError s) as H.
  rewrite (run_eta (fallback providers u lastError) s) in H.
  destruct H as (tried & rest & outcomes & E1 & E2 & E3 & E4).
  exists (List.length tried). split; [|split].
  - rewrite E1, length_app. lia.
  - intros Hne.
    destruct (value_of (fallback providers u lastError) s) as [text|e].
    + destruct E4 as (before & p & _ & _ & -> & _).
      rewrite length_app. simpl. lia.
    + destruct E4 as (-> & _). rewrite app_nil_r in E1. subst tried.
      destruct providers; [congruence|simpl; lia].
  - rewrite E3, map_fst_combine by (now rewrite length_map).
    rewrite E1, map_app.
    rewrite <- (length_map (fun p => getUrl p u) tried).
    now rewrite firstn_app, firstn_all, Nat.sub_diag, firstn_O, app_nil_r.
Qed.

(** X14: one call of [fetchTextWithFallback] sends between one and three
    requests, to the relays in their fixed order (allorigins, codetabs,
    corsproxy), each for the target with its time stamp, URI-encoded. *)
Theorem fetchText_requests (targetUrl : jsstring) (s : State) :
  let u := encodeURIComponent (cache_busted targetUrl (Date_now (world s))) in
  exists n,
    (1 <= n <= 3)%nat
    /\ List.map fst (requests (events_of (fetchTextWithFallback targetUrl) s))
       = firstn n [ js "https://api.allorigins.win/get?url=" ++ u;
                    js "https://api.codetabs.com/v1/proxy?quest=" ++ u;
                    js "https://corsproxy.io/?" ++ u ].
Proof.
  intros u. unfold fetchTextWithFallback, fetchTextWithFallback_over.
  rewrite events_of_bind.
  change (events_of Date_now_ s) with (@nil event).
  change (state_after Date_now_ s) with s.
  change (value_of Date_now_ s) with (Date_now (world s)).
  destruct (fallback_requests PROXY_PROVIDERS
              (cache_busted targetUrl (Date_now (world s))) None s)
    as (n & H1 & H2 & H3).
  exists n. split.
  - split; [apply H2; discriminate|exact H1].
  - exact H3.
Qed.

Lemma targetUrl_has_query (matchId : jsstring) (type : data_type) :
  Js.includes (js "?") (targetUrl_of matchId type) = true.
Proof.
  unfold targetUrl_of. rewrite !app_assoc. apply includes_app_l. reflexivity.
Qed.

(** X15: the two data endpoints carry a query string, so the time stamp of
    a match-data request is always joined with an ampersand, never with a
    second question mark. *)
Theorem fetchMatchData_time_stamp (matchId : jsstring) (type : data_type)
    (now : Z) :
  cache_busted (targetUrl_of matchId type) now
  = API_BASE ++ js "/" ++ endpoint type ++ js "/" ++ matchId
    ++ js "?currentSeason=true&__t=" ++ Js.of_Z now.
Proof.
  unfold cache_busted. rewrite targetUrl_has_query. unfold targetUrl_of.
  rewrite <- !app_assoc. reflexivity.
Qed.

(** X16: [fetchMatchData] returns the parsed value exactly when the text
    arrives and parses.  A transport failure comes out as it is; a text
    that does not parse comes out as the fixed invalid-response error, the
    parser's own error going to the console only.  Every failure is
    written to the console with the kind and the identifier, and the state
    is the one the fetch left. *)
Theorem fetchMatchData_outcomes (matchId : jsstring) (type : data_type)
    (s : State) :
  let t := targetUrl_of matchId type in
  let F := events_of (fetchTextWithFallback t) s in
  let line := js "Error fetching " ++ type_name type ++ js " for "
              ++ matchId ++ js ":" in
  state_after (fetchMatchData matchId type) s
  = state_after (fetchTextWithFallback t) s
  /\ match value_of (fetchTextWithFallback t) s with
     | Throw e =>
         value_of (fetchMatchData matchId type) s = Throw e
         /\ events_of (fetchMatchData matchId type) s
            = F ++ [EvConsole Err line (Some e)]
     | Ok text =>
         match JSON_parse text with
         | Ok v =>
             value_of (fetchMatchData matchId type) s = Ok v
             /\ events_of (fetchMatchData matchId type) s = F
         | Throw pe =>
             value_of (fetchMatchData matchId type) s = Throw invalid_json
             /\ events_of (fetchMatchData matchId type) s
                = F ++ [EvConsole Err (js "Failed to parse JSON for "
                                       ++ type_name type ++ js ".") (Some pe);
                        EvConsole Err line (Some invalid_json)]
         end
     end.
Proof.
  cbv zeta. unfold fetchMatchData. fold (targetUrl_of matchId type).
  rewrite state_after_bind, value_of_bind, events_of_bind.
  destruct (value_of (fetchTextWithFallback (targetUrl_of matchId type)) s)
    as [text|e].
  - destruct (JSON_parse text) as [v|pe].
    + split; [reflexivity|]. split; [reflexivity|]. apply app_nil_r.
    + split; [reflexivity|]. split; reflexivity.
  - split; [reflexivity|]. split; reflexivity.
Qed.

(** X17: [fetchResultsPage] fails exactly when the fetch of the page
    fails, and with the same error; a page that arrives always gives a
    list, empty when no anchor matches, in which no link occurs twice. *)
Theorem fetchResultsPage_outcomes (pageUrl : jsstring) (s : State) :
  match value_of (fetchTextWithFallback pageUrl) s with
  | Throw e =>
      value_of (fetchResultsPage pageUrl) s = Throw e
      /\ events_of (fetchResultsPage pageUrl) s
         = events_of (fetchTextWithFallback pageUrl) s
           ++ [EvConsole Err (js "Error scraping results page:") (Some e)]
  | Ok html =>
      value_of (fetchResultsPage pageUrl) s
      = Ok (extractMatchLinks (anchor_hrefs html))
      /\ NoDup (extractMatchLinks (anchor_hrefs html))
      /\ (anchor_hrefs html = [] -> extractMatchLinks (anchor_hrefs html) = [])
  end
  /\ state_after (fetchResultsPage pageUrl) s
     = state_after (fetchTextWithFallback pageUrl) s.
Proof.
  unfold fetchResultsPage.
  rewrite state_after_bind, value_of_bind, events_of_bind.
  destruct (value_of (fetchTextWithFallback pageUrl) s) as [html|e].
  - split; [|reflexivity]. split; [reflexivity|].
    split; [apply Array_from_Set_NoDup|]. now intros ->.
  - split; [|reflexivity]. split; reflexivity.
Qed.

End Transport.

(** ** More on the job queue *)

Section JobRelation.

Context {B : Browser}.

(** A relation between the successive versions of a job that every update
    of the code respects holds along every run. *)
Variable Rj : MatchJob -> MatchJob -> Prop.
Hypothesis Rj_refl : forall j, Rj j j.
Hypothesis Rj_trans : forall a b c, Rj a b -> Rj b c -> Rj a c.
Hypothesis Rj_status : forall st j, Rj j (with_status st j).
Hypothesis Rj_stats : forall j, Rj j (with_stats_downloaded j).
Hypothesis Rj_moves : forall j, Rj j (with_moves_completed j).
Hypothesis Rj_error : forall msg j, Rj j (with_error msg j).

Lemma update_related (target : jsstring) (f : MatchJob -> MatchJob) :
  (forall j, Rj j (f j)) -> steady (Forall2 Rj) (setJobs (update target f)).
Proof.
  intros H. apply steady_setJobs. intros l.
  induction l as [|j l IH]; [constructor|].
  simpl. constructor; [|exact IH].
  destruct (Js.eqb (id j) target); [apply H|apply Rj_refl].
Qed.

Lemma related_caught (job : MatchJob) (e : js_error) :
  steady (Forall2 Rj) (caught job e).
Proof.
  unfold caught.
  apply steady_bind; [apply steady_quiet, quiet_console|intros _].
  apply steady_bind; [apply update_related, Rj_error|intros _].
  apply steady_quiet, quiet_ret.
Qed.

Lemma related_still {A : Type} (m : M A) :
  (forall s, jobs (state_after m s) = jobs s
             /\ snapshots (events_of m s) = []) ->
  steady (Forall2 Rj) m.
Proof. apply steady_plain. Qed.

Lemma related_processJob (job : MatchJob) :
  steady (Forall2 Rj) (processJob job).
Proof.
  unfold processJob.
  apply steady_bind; [apply update_related, Rj_status|intros _].
  apply steady_bind;
    [apply steady_quiet, quiet_fetchMatchData|intros [statsData|e]];
    [|apply related_caught].
  apply steady_bind; [apply update_related, Rj_stats|intros _].
  apply steady_bind; [apply related_still; intros s; now split|intros _].
  apply steady_bind;
    [apply steady_quiet, quiet_fetchMatchData|intros [movesData|e]];
    [|apply related_caught].
  apply steady_bind; [apply update_related, Rj_moves|intros _].
  apply steady_quiet, quiet_ret.
Qed.

Lemma related_bulk_loop (queue : list MatchJob) (i total : nat)
    (allFiles : list file) :
  steady (Forall2 Rj) (bulk_loop queue i total allFiles).
Proof.
  revert i allFiles. induction queue as [|job rest IH]; intros i allFiles.
  - apply steady_quiet, quiet_ret.
  - cbn [bulk_loop].
    apply steady_bind; [apply update_related, Rj_status|intros _].
    apply steady_bind; [apply related_still; intros s; now split|intros _].
    apply steady_bind; [apply related_processJob|intros r].
    destruct (collected i r allFiles) as [files|e];
      [|apply steady_quiet, quiet_ret].
    apply steady_bind; [apply related_still; intros s; now split|intros _].
    apply IH.
Qed.

Lemma Forall2_related_refl (l : list MatchJob) : Forall2 Rj l l.
Proof. induction l; constructor; auto. Qed.

Lemma Forall2_related_trans (a b c : list MatchJob) :
  Forall2 Rj a b -> Forall2 Rj b c -> Forall2 Rj a c.
Proof.
  intros H. revert c. induction H as [|x y a b H1 _ IH]; intros c Hc;
    inversion Hc as [|y' z b' c' H2 Hbc]; subst; constructor.
  - now apply Rj_trans with y.
  - now apply IH.
Qed.

Lemma related_ends {A : Type} (m : M A) (s : State) :
  steady (Forall2 Rj) m -> Forall2 Rj (jobs s) (jobs (state_after m s)).
Proof.
  intros H. destruct (H s) as [C L]. rewrite L. clear L.
  revert C. generalize (jobs s) as first.
  induction (snapshots (events_of m s)) as [|x later IH]; intros first C.
  - apply Forall2_related_refl.
  - destruct C as [H1 H2]. rewrite last_cons_default.
    apply Forall2_related_trans with x; [exact H1|now apply IH].
Qed.

End JobRelation.

Section QueueMore.

Context {B : Browser}.

(** X18: no update ever changes the identifier, the URL or the title of a
    job, nor the length or the order of the job list: along the job lists
    of [processJob] and of the whole queue, and from the first list to the
    last, each job keeps its place and its identity. *)
Theorem jobs_keep_identity (job : MatchJob) (queue : list MatchJob)
    (i total : nat) (allFiles : list file) (s : State) :
  chain (Forall2 same_identity) (jobs s)
        (snapshots (events_of (processJob job) s))
  /\ Forall2 same_identity (jobs s) (jobs (state_after (processJob job) s))
  /\ chain (Forall2 same_identity) (jobs s)
           (snapshots (events_of (bulk_loop queue i total allFiles) s))
  /\ Forall2 same_identity (jobs s)
             (jobs (state_after (bulk_loop queue i total allFiles) s))
  /\ List.length (jobs (state_after (bulk_loop queue i total allFiles) s))
     = List.length (jobs s).
Proof.
  assert (R1 : forall j, same_identity j j) by (intros j; repeat split).
  assert (R2 : forall a b c, same_identity a b -> same_identity b c ->
                             same_identity a c).
  { intros a b c (H1 & H2 & H3) (H4 & H5 & H6). repeat split; congruence. }
  assert (P : steady (Forall2 same_identity) (processJob job)).
  { apply related_processJob; intros; repeat split; auto. }
  assert (Q : steady (Forall2 same_identity)
                     (bulk_loop queue i total allFiles)).
  { apply related_bulk_loop; intros; repeat split; auto. }
  split; [apply P|]. split; [now apply related_ends|].
  split; [apply Q|].
  assert (E : Forall2 same_identity (jobs s)
                (jobs (state_after (bulk_loop queue i total allFiles) s)))
    by now apply related_ends.
  split; [exact E|]. symmetry. eapply Forall2_length. exact E.
Qed.

(** X19: an error, once recorded on a job, is never cleared: no later
    update of the run, a successful one included, takes it away. *)
Theorem error_never_cleared (job : MatchJob) (queue : list MatchJob)
    (i total : nat) (allFiles : list file) (s : State) :
  (forall j, error (with_moves_completed j) = error j)
  /\ chain (Forall2 error_kept) (jobs s)
           (snapshots (events_of (processJob job) s))
  /\ Forall2 error_kept (jobs s) (jobs (state_after (processJob job) s))
  /\ chain (Forall2 error_kept) (jobs s)
           (snapshots (events_of (bulk_loop queue i total allFiles) s))
  /\ Forall2 error_kept (jobs s)
             (jobs (state_after (bulk_loop queue i total allFiles) s)).
Proof.
  assert (R1 : forall j, error_kept j j) by (intros j H; exact H).
  assert (R2 : forall a b c, error_kept a b -> error_kept b c ->
                             error_kept a c).
  { intros a b c H1 H2 H. auto. }
  assert (P : steady (Forall2 error_kept) (processJob job)).
  { apply related_processJob; auto; intros; intros H; try exact H.
    discriminate. }
  assert (Q : steady (Forall2 error_kept)
                     (bulk_loop queue i total allFiles)).
  { apply related_bulk_loop; auto; intros; intros H; try exact H.
    discriminate. }
  split; [reflexivity|].
  split; [apply P|]. split; [now apply related_ends|].
  split; [apply Q|now apply related_ends].
Qed.

(** X20: [processJob] touches only the jobs that bear the identifier of
    its job, and leaves each of them in a terminal state: completed, both
    flags up, when it returns the two documents; in error, with a message,
    when it returns nothing. *)
Theorem processJob_local (job : MatchJob) (s : State) :
  Forall2 (fun j j' =>
             if Js.eqb (id j) (id job)
             then settled (value_of (processJob job) s) j'
             else j' = j)
          (jobs s) (jobs (state_after (processJob job) s)).
Proof.
  destruct (processJob_settles job s) as (g & G1 & G2 & G3). rewrite G1.
  clear G1. unfold update. induction (jobs s) as [|j l IH]; [constructor|].
  simpl. constructor; [|exact IH].
  destruct (Js.eqb (id j) (id job)); [apply G3|reflexivity].
Qed.

End QueueMore.

Section Cost.

Context {B : Browser}.

Lemma at_most_bind {A C : Type} (a b : nat) (m : M A) (k : A -> M C) :
  at_most a m -> (forall x, at_most b (k x)) -> at_most (a + b) (bind m k).
Proof.
  intros Hm Hk s. rewrite events_of_bind, requests_app, length_app.
  specialize (Hm s). specialize (Hk (value_of m s) (state_after m s)). lia.
Qed.

Lemma at_most_le {A : Type} (a b : nat) (m : M A) :
  (a <= b)%nat -> at_most a m -> at_most b m.
Proof. intros L H s. specialize (H s). lia. Qed.

Lemma at_most_silent {A : Type} (m : M A) :
  (forall s, requests (events_of m s) = []) -> at_most 0 m.
Proof. intros H s. now rewrite H. Qed.

Lemma at_most_fetchText (targetUrl : jsstring) :
  at_most 3 (fetchTextWithFallback targetUrl).
Proof.
  intros s. unfold fetchTextWithFallback, fetchTextWithFallback_over.
  rewrite events_of_bind.
  change (events_of Date_now_ s) with (@nil event).
  change (state_after Date_now_ s) with s.
  change (value_of Date_now_ s) with (Date_now (world s)).
  destruct (fallback_requests PROXY_PROVIDERS
              (cache_busted targetUrl (Date_now (world s))) None s)
    as (n & H1 & _ & H3).
  rewrite app_nil_l.
  rewrite <- (length_map fst (requests _)), H3, length_firstn.
  simpl in *. lia.
Qed.

Lemma at_most_fetchMatchData (matchId : jsstring) (type : data_type) :
  at_most 3 (fetchMatchData matchId type).
Proof.
  unfold fetchMatchData. change 3%nat with (3 + 0)%nat.
  apply at_most_bind; [apply at_most_fetchText|intros [t|e]].
  - destruct (JSON_parse t); apply at_most_silent; reflexivity.
  - apply at_most_silent; reflexivity.
Qed.

Lemma at_most_caught (job : MatchJob) (e : js_error) :
  at_most 0 (caught job e).
Proof. apply at_most_silent. reflexivity. Qed.

Lemma at_most_processJob (job : MatchJob) : at_most 6 (processJob job).
Proof.
  unfold processJob. change 6%nat with (0 + (3 + 3))%nat.
  apply at_most_bind; [apply at_most_silent; reflexivity|intros _].
  apply at_most_bind; [apply at_most_fetchMatchData|intros [statsData|e]];
    [|apply at_most_le with 0%nat; [lia|apply at_most_caught]].
  change 3%nat with (0 + (0 + (3 + 0)))%nat.
  apply at_most_bind; [apply at_most_silent; reflexivity|intros _].
  apply at_most_bind; [apply at_most_silent; reflexivity|intros _].
  apply at_most_bind; [apply at_most_fetchMatchData|intros [movesData|e]];
    [|apply at_most_caught].
  apply at_most_silent. reflexivity.
Qed.

Lemma at_most_bulk_loop (queue : list MatchJob) (i total : nat)
    (allFiles : list file) :
  at_most (6 * List.length queue) (bulk_loop queue i total allFiles).
Proof.
  revert i allFiles. induction queue as [|job rest IH]; intros i allFiles.
  - apply at_most_silent. reflexivity.
  - cbn [bulk_loop].
    replace (6 * List.length (job :: rest))%nat
      with (0 + (0 + (6 + (0 + 6 * List.length rest))))%nat by (simpl; lia).
    apply at_most_bind; [apply at_most_silent; reflexivity|intros _].
    apply at_most_bind; [apply at_most_silent; reflexivity|intros _].
    apply at_most_bind; [apply at_most_processJob|intros r].
    destruct (collected i r allFiles) as [files|e].
    + apply at_most_bind; [apply at_most_silent; reflexivity|intros _].
      apply IH.
    + apply at_most_le with 0%nat; [lia|]. apply at_most_silent. reflexivity.
Qed.

(** X21: the cost of a run in requests is bounded: three for one fetch of
    match data, six for one job, six per job for a queue. *)
Theorem requests_bounded (matchId : jsstring) (type : data_type)
    (job : MatchJob) (queue : list MatchJob) (i total : nat)
    (allFiles : list file) (s : State) :
  (List.length (requests (events_of (fetchMatchData matchId type) s)) <= 3)%nat
  /\ (List.length (requests (events_of (processJob job) s)) <= 6)%nat
  /\ (List.length
        (requests (events_of (bulk_loop queue i total allFiles) s))
      <= 6 * List.length queue)%nat.
Proof.
  split; [apply at_most_fetchMatchData|].
  split; [apply at_most_processJob|apply at_most_bulk_loop].
Qed.

(** X22: when the statistics fetch of a job fails, the moves are never
    asked for: [processJob] returns nothing, sends no request beyond those
    of the failed fetch, makes no pause of its own, and records the message
    of that failure on every job that bears the identifier. *)
Theorem processJob_stats_failure (job : MatchJob) (s : State) (e : js_error) :
  let s1 := state_after
              (setJobs (update (id job) (with_status DOWNLOADING_JSON))) s in
  value_of (fetchMatchData (id job) stats) s1 = Throw e ->
  value_of (processJob job) s = None
  /\ requests (events_of (processJob job) s)
     = requests (events_of (fetchMatchData (id job) stats) s1)
  /\ delays (events_of (processJob job) s)
     = delays (events_of (fetchMatchData (id job) stats) s1)
  /\ Forall (fun j => id j = id job ->
                      status j = ERROR /\ error j = Some (message e))
            (jobs (state_after (processJob job) s)).
Proof.
  intros s1 H.
  unfold value_of at 1, state_after at 1, events_of at 1 3.
  rewrite processJob_run. cbv zeta. fold s1. rewrite H. cbn [fst snd].
  split; [reflexivity|].
  split; [rewrite !requests_app; simpl; now rewrite app_nil_r|].
  split; [rewrite !delays_app; simpl; now rewrite app_nil_r|].
  destruct (quiet_fetchMatchData (id job) stats s1) as [J _].
  change (jobs (set_failed job e
                  (state_after (fetchMatchData (id job) stats) s1)))
    with (update (id job) (with_error (message e))
            (jobs (state_after (fetchMatchData (id job) stats) s1))).
  rewrite J. apply Forall_forall. intros j Hj Hid.
  unfold update in Hj. apply in_map_iff in Hj as (j0 & <- & _).
  destruct (Js.eqb (id j0) (id job)) eqn:E; [now split|].
  exfalso. rewrite Hid, eqb_refl in E. discriminate E.
Qed.

(** X23: [downloadAsZip] never raises; it returns [true] exactly when the
    archive is generated, and the save is triggered exactly then, once and
    under the name given.  The archive is asked for once, with one entry
    per file, in order and under the names of the files. *)
Theorem downloadAsZip_outcome (files : list file) (zipFilename : jsstring)
    (s : State) :
  let ok := value_of (downloadAsZip files zipFilename) s in
  let evs := events_of (downloadAsZip files zipFilename) s in
  (ok = true
   <-> exists content,
         fst (zip_generateAsync (entries_of files) (world s)) = Ok content)
  /\ zips evs = [(entries_of files, ok)]
  /\ saves evs = (if ok then [zipFilename] else [])
  /\ List.map fst (entries_of files) = List.map filename files
  /\ jobs (state_after (downloadAsZip files zipFilename) s) = jobs s.
Proof.
  cbv zeta. unfold value_of, events_of, state_after, downloadAsZip.
  fold (entries_of files).
  destruct (zip_generateAsync (entries_of files) (world s)) as [[content|e] w];
    cbn [fst snd].
  - split; [split; [intros _; now exists content|reflexivity]|].
    repeat split. unfold entries_of. rewrite map_map. reflexivity.
  - split; [split; [discriminate|intros [c Hc]; discriminate]|].
    repeat split. unfold entries_of. rewrite map_map. reflexivity.
Qed.

Lemma startsWith_head (x : N) (p : jsstring) (c : N) (r : jsstring) :
  Js.startsWith (x :: p) (c :: r) = true -> x = c.
Proof.
  simpl. unfold Js.unit_eqb. intros H. apply andb_true_iff in H as [H _].
  now apply N.eqb_eq.
Qed.

Lemma files_of_names (rs : list (option (json * json))) (i n : nat)
    (files : list file) (f : file) :
  files_of i rs = Ok files ->
  nth_error files n = Some f ->
  Js.startsWith (if Nat.even n then js "J" else js "Moves/J") (filename f)
  = true.
Proof.
  revert i n files. induction rs as [|[docs|] rs IH]; intros i n files F H.
  - injection F as <-. destruct n; discriminate.
  - cbn [files_of] in F. unfold collected, pushed in F.
    destruct (generateFilenames _ _) as [names|e] eqn:G; [|discriminate].
    apply generateFilenames_names in G as (x & pl & pv & ->).
    destruct (files_of (S i) rs) as [more|e] eqn:R; [|discriminate].
    injection F as <-. destruct n as [|[|n]].
    + injection H as <-. reflexivity.
    + injection H as <-. reflexivity.
    + change (Nat.even (S (S n))) with (Nat.even n).
      apply (IH (S i) n more R). exact H.
  - cbn [files_of] in F. unfold collected in F.
    destruct (files_of (S i) rs) as [more|e] eqn:R; [|discriminate].
    injection F as <-. apply (IH (S i) n more R). exact H.
Qed.

(** X24: in the files of a bulk run the documents come in pairs: a
    statistics document, named from [J] on, then a moves document, named
    from [Moves/J] on; so no statistics document bears the name of a moves
    document, and the number of files is even. *)
Theorem bulk_file_names (queue : list MatchJob) (i total : nat) (s : State) :
  let files := handed (value_of (bulk_loop queue i total []) s) in
  (forall n f, nth_error files n = Some f ->
               Js.startsWith (if Nat.even n then js "J" else js "Moves/J")
                             (filename f) = true)
  /\ (forall n m f g, nth_error files n = Some f -> nth_error files m = Some g ->
                      Nat.even n = true -> Nat.even m = false ->
                      filename f <> filename g)
  /\ Nat.even (List.length files) = true.
Proof.
  cbv zeta. destruct (bulk_files queue i total [] s) as (F & _ & _).
  rewrite F. clear F.
  set (rs := value_of (bulk_results queue i total) s).
  destruct (files_of i rs) as [files|e] eqn:R; cbn [handed app].
  - split; [intros n f; now apply (files_of_names rs i n files)|]. split.
    + intros n m f g Hf Hg En Em E.
      apply (files_of_names rs i n files f R) in Hf.
      apply (files_of_names rs i m files g R) in Hg.
      rewrite En in Hf. rewrite Em in Hg.
      rewrite E in Hf. destruct (filename g) as [|c r]; [discriminate|].
      apply (startsWith_head 74%N []) in Hf.
      apply (startsWith_head 77%N (js "oves/J")) in Hg. congruence.
    + rewrite (files_of_length i rs files R). clear.
      induction (List.length (filter _ rs)) as [|k IH]; [reflexivity|].
      replace (2 * S k)%nat with (S (S (2 * k))) by lia. exact IH.
  - split; [intros [|n] f H; discriminate H|]. split; [|reflexivity].
    intros [|n] m f g H; discriminate H.
Qed.

End Cost.

(** The statistics fetch of the job meets three refusals. *)
Lemma processJob_stats_failure_witness :
  let job := Script.job Script.id1 (js "u1") in
  let s := Script.start Script.exhausted false [job] in
  value_of (B := Script.browser) (processJob job) s = None
  /\ List.length (requests (events_of (B := Script.browser) (processJob job) s))
     = 3%nat.
Proof.
  intros job s.
  destruct (processJob_stats_failure (B := Script.browser) job s
              (Error (js "Failed to fetch")) eq_refl) as (H1 & H2 & _).
  split; [exact H1|]. rewrite H2. reflexivity.
Defined.

(** ** The two handlers *)

Section Handlers.

Context {B : Browser}.

Lemma zips_app (a b : list event) : zips (a ++ b) = zips a ++ zips b.
Proof. apply flat_map_app. Qed.

Lemma saves_app (a b : list event) : saves (a ++ b) = saves a ++ saves b.
Proof. apply flat_map_app. Qed.

Lemma zipless_bind {A C : Type} (m : M A) (k : A -> M C) :
  zipless m -> (forall a, zipless (k a)) -> zipless (bind m k).
Proof.
  intros Hm Hk s. rewrite events_of_bind, zips_app, saves_app.
  destruct (Hm s) as [-> ->].
  now destruct (Hk (value_of m s) (state_after m s)) as [-> ->].
Qed.

Lemma zipless_quiet {A : Type} (m : M A) : quiet m -> zipless m.
Proof.
  intros H s. destruct (H s) as [_ F].
  induction F as [|e evs He _ [IH1 IH2]]; [now split|].
  destruct e; simpl in He; try contradiction; now split.
Qed.

Lemma zipless_plain {A : Type} (m : M A) :
  (forall s, zips (events_of m s) = [] /\ saves (events_of m s) = []) ->
  zipless m.
Proof. intros H. exact H. Qed.

Lemma zipless_processJob (job : MatchJob) : zipless (processJob job).
Proof.
  unfold processJob, caught.
  apply zipless_bind; [apply zipless_plain; now split|intros _].
  apply zipless_bind;
    [apply zipless_quiet, quiet_fetchMatchData|intros [statsData|e]];
    [|apply zipless_plain; now split].
  apply zipless_bind; [apply zipless_plain; now split|intros _].
  apply zipless_bind; [apply zipless_plain; now split|intros _].
  apply zipless_bind;
    [apply zipless_quiet, quiet_fetchMatchData|intros [movesData|e]];
    apply zipless_plain; now split.
Qed.

Lemma zipless_bulk_loop (queue : list MatchJob) (i total : nat)
    (allFiles : list file) :
  zipless (bulk_loop queue i total allFiles).
Proof.
  revert i allFiles. induction queue as [|job rest IH]; intros i allFiles.
  - apply zipless_plain. now split.
  - cbn [bulk_loop].
    apply zipless_bind; [apply zipless_plain; now split|intros _].
    apply zipless_bind; [apply zipless_plain; now split|intros _].
    apply zipless_bind; [apply zipless_processJob|intros r].
    destruct (collected i r allFiles) as [files|e];
      [|apply zipless_plain; now split].
    apply zipless_bind; [apply zipless_plain; now split|intros _].
    apply IH.
Qed.

Lemma quiet_fetchResultsPage (pageUrl : jsstring) :
  quiet (fetchResultsPage pageUrl).
Proof.
  unfold fetchResultsPage.
  apply quiet_bind; [apply quiet_fetchTextWithFallback|intros [html|e]].
  - apply quiet_ret.
  - apply quiet_bind; [apply quiet_console|intros _]. apply quiet_ret.
Qed.

Lemma downloadAsZip_events (files : list file) (zipFilename : jsstring)
    (s : State) :
  zips (events_of (downloadAsZip files zipFilename) s)
  = [(entries_of files, value_of (downloadAsZip files zipFilename) s)]
  /\ saves (events_of (downloadAsZip files zipFilename) s)
     = (if value_of (downloadAsZip files zipFilename) s
        then [zipFilename] else [])
  /\ jobs (state_after (downloadAsZip files zipFilename) s) = jobs s.
Proof.
  unfold value_of, events_of, state_after, downloadAsZip.
  fold (entries_of files).
  destruct (zip_generateAsync (entries_of files) (world s)) as [[content|e] w];
    repeat split.
Qed.

(** When the loop is left by an exception, the job whose names could not
    be made is in the list, completed. *)
Lemma bulk_loop_left (queue : list MatchJob) (i total : nat)
    (allFiles : list file) (s : State) (e : js_error) :
  (forall q, In q queue -> In (id q) (List.map id (jobs s))) ->
  value_of (bulk_loop queue i total allFiles) s = Throw e ->
  exists j,
    In j (jobs (state_after (bulk_loop queue i total allFiles) s))
    /\ status j = COMPLETED.
Proof.
  revert i allFiles s. induction queue as [|job rest IH];
    intros i allFiles s Q V; [discriminate V|].
  pose proof (bulk_loop_cons job rest i total allFiles s) as L.
  cbv zeta in L.
  destruct (turn_settles job i total s) as (g & G1 & G2 & G3).
  assert (Ids : List.map id (jobs (state_after (turn job i total) s))
                = List.map id (jobs s)).
  { rewrite G1. unfold update. rewrite map_map. apply map_ext.
    intros j. destruct (Js.eqb (id j) (id job)); [apply G2|reflexivity]. }
  destruct (collected i _ allFiles) as [files|e'] eqn:C;
    destruct L as (V' & S' & _); rewrite S'.
  - rewrite V' in V. apply (IH (S i) files _); [|exact V].
    intros q Hq. change (jobs (paused ?x)) with (jobs x).
    rewrite Ids. apply Q. now right.
  - apply collected_throws in C.
    destruct (value_of (turn job i total) s) as [docs|]; [|discriminate C].
    assert (H : In (id job) (List.map id (jobs s))) by (apply Q; now left).
    apply in_map_iff in H as (j0 & E0 & H0).
    exists (g j0). split.
    + rewrite G1. unfold update. apply in_map_iff. exists j0.
      split; [|exact H0]. apply eqb_eq in E0. now rewrite E0.
    + now destruct (G3 j0).
Qed.

(** X25: a bulk run ends in one of five ways.  The page could not be
    fetched, or it holds no link: no job is created.  No job succeeded: no
    archive is asked for.  The names of a completed job could not be made:
    the run ends under the message of the listing failure, with that job
    completed in the list, and no archive is asked for.  Otherwise one
    archive, and one only, is asked for, with an entry for every file
    retrieved; it is saved only if its generation succeeded. *)
Theorem bulk_run_outcomes (inputUrl customFilename : jsstring) (s : State) :
  let s3 := mkState (world s) [] true (js "Fetching result list page...") in
  let final := state_after (handleBulkStart inputUrl customFilename) s in
  let evs := events_of (handleBulkStart inputUrl customFilename) s in
  ((exists e, value_of (fetchResultsPage inputUrl) s3 = Throw e)
   /\ jobs final = []
   /\ statusMessage final
      = js "Error fetching the list page. Check CORS or URL."
   /\ zips evs = [] /\ saves evs = [])
  \/ ((exists l ls, value_of (fetchResultsPage inputUrl) s3 = Ok (l :: ls))
      /\ (exists j, In j (jobs final) /\ status j = COMPLETED)
      /\ statusMessage final
         = js "Error fetching the list page. Check CORS or URL."
      /\ zips evs = [] /\ saves evs = [])
  \/ (value_of (fetchResultsPage inputUrl) s3 = Ok []
      /\ jobs final = []
      /\ statusMessage final = js "No statistics links found on that page."
      /\ zips evs = [] /\ saves evs = [])
  \/ ((exists l ls, value_of (fetchResultsPage inputUrl) s3 = Ok (l :: ls))
      /\ statusMessage final
         = js "Finished, but no files were successfully retrieved."
      /\ zips evs = [] /\ saves evs = [])
  \/ ((exists l ls, value_of (fetchResultsPage inputUrl) s3 = Ok (l :: ls))
      /\ statusMessage final = js "All jobs finished. ZIP downloaded."
      /\ exists files ok,
           files <> []
           /\ zips evs = [(entries_of files, ok)]
           /\ (ok = false -> saves evs = [])
           /\ (ok = true -> exists zipFilename, saves evs = [zipFilename])).
Proof.
  cbv zeta. unfold handleBulkStart.
  repeat (rewrite events_of_bind || rewrite state_after_bind
          || rewrite value_of_bind).
  change (state_after (setStatusMessage (js "Fetching result list page..."))
            (state_after (setJobs (fun _ => []))
               (state_after (setIsProcessing true) s)))
    with (mkState (world s) [] true (js "Fetching result list page...")).
  set (s3 := mkState (world s) [] true (js "Fetching result list page...")).
  destruct (quiet_fetchResultsPage inputUrl s3) as [J3 _].
  destruct (zipless_quiet _ (quiet_fetchResultsPage inputUrl) s3) as [Z3 V3].
  set (s4 := state_after (fetchResultsPage inputUrl) s3) in *.
  destruct (value_of (fetchResultsPage inputUrl) s3) as [links|e].
  - destruct links as [|l ls]; cbn [List.length Nat.eqb].
    + right. right. left. split; [reflexivity|].
      repeat (rewrite events_of_bind || rewrite state_after_bind
              || rewrite value_of_bind).
      split; [exact J3|]. split; [reflexivity|].
      rewrite !zips_app, !saves_app, Z3, V3. now split.
    + repeat (rewrite events_of_bind || rewrite state_after_bind
              || rewrite value_of_bind).
      set (queue := initialJobs (l :: ls)).
      match goal with
      | |- context [value_of (bulk_loop queue 0 ?n []) ?st] =>
          set (s5 := st);
          destruct (zipless_bulk_loop queue 0 n [] s5) as [Z5 V5];
          pose proof (bulk_loop_left queue 0 n [] s5) as Left;
          destruct (value_of (bulk_loop queue 0 n []) s5) as [[|f fs]|e]
            eqn:F
      end.
      * right. right. right. left. split; [now exists l, ls|].
        cbn [List.length Nat.ltb Nat.leb].
        split; [reflexivity|].
        rewrite !zips_app, !saves_app, Z3, V3, Z5, V5. now split.
      * right. right. right. right. split; [now exists l, ls|].
        cbn [List.length Nat.ltb Nat.leb].
        repeat (rewrite events_of_bind || rewrite state_after_bind
                || rewrite value_of_bind).
        split; [reflexivity|].
        match goal with
        | |- context [events_of (downloadAsZip (f :: fs) ?nm) ?st] =>
            destruct (downloadAsZip_events (f :: fs) nm st) as (Zd & Vd & _);
            exists (f :: fs), (value_of (downloadAsZip (f :: fs) nm) st)
        end.
        split; [discriminate|].
        rewrite !zips_app, !saves_app, Z3, V3, Z5, V5, Zd, Vd.
        split; [reflexivity|]. split.
        -- intros ->. reflexivity.
        -- intros ->. eexists. reflexivity.
      * right. left. split; [now exists l, ls|].
        repeat (rewrite events_of_bind || rewrite state_after_bind
                || rewrite value_of_bind).
        split; [|split; [reflexivity|]].
        -- apply (Left e); [|reflexivity].
           intros q Hq. apply in_map. exact Hq.
        -- rewrite !zips_app, !saves_app, Z3, V3, Z5, V5. now split.
  - left. split; [now exists e|].
    repeat (rewrite events_of_bind || rewrite state_after_bind
            || rewrite value_of_bind).
    split; [exact J3|]. split; [reflexivity|].
    rewrite !zips_app, !saves_app, Z3, V3. now split.
Qed.









End Handlers.


Lemma decode_accepts_witness :
  exists response,
    Script.answer (js "X") = Ok response /\ resp_ok response = true.
Proof.
  destruct (decode_accepts (B := Script.browser)
              (mkProvider (js "codetabs") (fun t => t) false)
              (Script.answer (js "X")) (js "X") eq_refl)
    as (r & H1 & H2 & _).
  now exists r.
Defined.

Section Stamp.

Context {B : Browser}.

(** X27: the time stamp of the default archive name keeps its length and
    holds neither colon nor dot once the replacement is done; a text
    without them is left as it is, so replacing twice changes nothing
    more. *)
Theorem dashes_clean (s : jsstring) :
  List.length (dashes s) = List.length s
  /\ (forall c, In c (dashes s) -> c <> 58%N /\ c <> 46%N)
  /\ ((forall c, In c s -> c <> 58%N /\ c <> 46%N) -> dashes s = s)
  /\ dashes (dashes s) = dashes s.
Proof.
  assert (Clean : forall t c, In c (dashes t) -> c <> 58%N /\ c <> 46%N).
  { intros t c H. unfold dashes in H. apply in_map_iff in H as (x & <- & _).
    destruct (N.eqb_spec x 58) as [->|N1]; [split; discriminate|].
    destruct (N.eqb_spec x 46) as [->|N2]; [split; discriminate|].
    simpl. now split. }
  assert (Same : forall t, (forall c, In c t -> c <> 58%N /\ c <> 46%N) ->
                           dashes t = t).
  { intros t H. unfold dashes. rewrite <- (map_id t) at 2.
    apply map_ext_in. intros x Hx. destruct (H x Hx) as [N1 N2].
    apply N.eqb_neq in N1, N2. now rewrite N1, N2. }
  split; [apply length_map|]. split; [apply Clean|]. split; [apply Same|].
  apply Same, Clean.
Qed.

End Stamp.
